(** * OrdenLexicoDiscretas: peptide enumeration and validation

    A shallow embedding of [OrdenLexicoDiscretas.py]: the residue table
    [amino_acids], the sorted alphabet [sorted_aas], the validity predicate
    [is_valid_peptide] and the generator [generate_peptides].

    Python values are modelled as follows.
    - [int] is [Z]; a one-character [str] (a residue code) is an [ascii];
      a tuple or string of codes is a [list ascii]; [''.join(seq)] is a
      [string].
    - [float] is IEEE 754 binary64, Rocq's primitive [float]; [+], [/], [*]
      and the comparisons are the primitive operations, which round to
      nearest even as CPython's do. The decimal literals of the table denote
      the nearest binary64 values, in Python and here alike.
    - An exception that escapes a function is a [Raise] result; the error
      monad below threads it through the calls.
    - The wall-clock measurements ([time()]) and the console output are left
      out; the two statistics that the function computes and prints are
      fields of the value that the model returns. *)

From Stdlib Require Import ZArith List Ascii String Uint63 Floats Bool Lia Sorted.
Import ListNotations.

Set Warnings "-inexact-float".

Local Open Scope Z_scope.

(** ** Python runtime: exceptions, numbers and built-ins *)

Module Py.

(** The exceptions that the modelled code can raise. *)
Inductive exn : Type :=
| ZeroDivisionError
| KeyError
| ValueError.

Inductive result (A : Type) : Type :=
| Ok (a : A)
| Raise (e : exn).

Arguments Ok {A} a.
Arguments Raise {A} e.

Definition bind {A B : Type} (m : result A) (f : A -> result B) : result B :=
  match m with
  | Ok a => f a
  | Raise e => Raise e
  end.

(** A generator expression [f(x) for x in xs], consumed to the end: the
    values in order, or the first exception. *)
Fixpoint mapM {A B : Type} (f : A -> result B) (xs : list A) : result (list B) :=
  match xs with
  | [] => Ok []
  | x :: xs' =>
      bind (f x) (fun y => bind (mapM f xs') (fun ys => Ok (y :: ys)))
  end.

(** A Python number that is either an [int] or a [float]. *)
Inductive num : Type :=
| Int (z : Z)
| Float (f : float).

(** [len(xs)] *)
Definition len {A : Type} (xs : list A) : Z := Z.of_nat (List.length xs).

(** [float(n)] for an [int] [n]: the nearest binary64 value. Below 2^53
    in magnitude, which covers every length and count that occurs, the
    conversion is exact and goes through the machine integer. *)
Definition float_of_int (n : Z) : float :=
  if Z.abs n <? 9007199254740992 then
    let f := PrimFloat.of_uint63 (Uint63.of_Z (Z.abs n)) in
    if n <? 0 then (- f)%float else f
  else SF2Prim (binary_normalize prec emax n 0 false).

(** [sum(xs)] over [int]s. *)
Definition sum_int (xs : list Z) : Z := fold_left Z.add xs 0.

(** [sum(xs)] over [float]s: the items are added from left to right,
    starting from 0, each addition rounded. (CPython 3.12 and later carry
    a compensation term besides, see [sum_float_compensated].) *)
Definition sum_float (xs : list float) : float :=
  fold_left PrimFloat.add xs 0%float.

(** [x / n] for a [float] [x] and an [int] [n]. *)
Definition truediv_float_int (x : float) (n : Z) : result float :=
  if n =? 0 then Raise ZeroDivisionError
  else Ok (x / float_of_int n)%float.

(** [a / b] for two [int]s (true division). Both operands are converted
    exactly when they are below 2^53 in magnitude. *)
Definition truediv_int_int (a b : Z) : result float :=
  if b =? 0 then Raise ZeroDivisionError
  else Ok (float_of_int a / float_of_int b)%float.

(** [round(x, 2)]: the exact binary value of [x] is rounded to the nearest
    multiple of 1/100, ties going to the even multiple, and the result is
    the binary64 value nearest to that decimal, [n / 100] (one correctly
    rounded division while [n] is below 2^53, far above the means, ratios
    and percentages rounded here). *)
Definition round2 (x : float) : float :=
  match Prim2SF x with
  | S754_finite s m e =>
      if 0 <=? e then x
      else
        let num := Zpos m * 100 in
        let den := 2 ^ (- e) in
        let q := num / den in
        let r2 := 2 * (num mod den) in
        let n := if r2 <? den then q
                 else if den <? r2 then q + 1
                 else if Z.even q then q else q + 1 in
        let y := (float_of_int n / 100)%float in
        if s then (- y)%float else y
  | _ => x
  end.

(** [sorted(xs)] for one-character strings: ascending code points
    ([Ascii.leb] compares the codes). *)
Fixpoint insert_sorted (a : ascii) (xs : list ascii) : list ascii :=
  match xs with
  | [] => [a]
  | b :: xs' => if Ascii.leb a b then a :: xs else b :: insert_sorted a xs'
  end.

Definition sorted (xs : list ascii) : list ascii :=
  fold_right insert_sorted [] xs.

(** [itertools.product(pool, repeat=n)] for [n >= 0]: the tuples in the
    order of an odometer whose rightmost position advances fastest. *)
Fixpoint product_nat {A : Type} (pool : list A) (n : nat) : list (list A) :=
  match n with
  | O => [[]]
  | S n' => flat_map (fun a => map (cons a) (product_nat pool n')) pool
  end.

(** [itertools.product(pool, repeat=k)]: a negative [repeat] is refused
    with [ValueError] when the iterator is built. The limits of the machine
    (a [repeat] beyond the native integer, memory) are not modelled. *)
Definition product {A : Type} (pool : list A) (repeat : Z) : result (list (list A)) :=
  if repeat <? 0 then Raise ValueError
  else Ok (product_nat pool (Z.to_nat repeat)).

End Py.

Import Py.

Notation "x <- m ;; k" := (Py.bind m (fun x => k))
  (at level 61, m at next level, right associativity).

(** ** 1. The residue table *)

Inductive polarity_class : Type :=
| nonpolar
| polar
| positive
| negative.

(** [p == q] on the polarity strings. *)
Definition polarity_eqb (p q : polarity_class) : bool :=
  match p, q with
  | nonpolar, nonpolar | polar, polar
  | positive, positive | negative, negative => true
  | _, _ => false
  end.

Module Residue.

Record t : Type := make
  { mass : Z;
    hydrophobicity : float;
    polarity : polarity_class }.

End Residue.

(** The dictionary literal, in the order it is written. *)
Definition amino_acids : list (ascii * Residue.t) :=
  [ ("A"%char, Residue.make 89 1.8 nonpolar);
    ("C"%char, Residue.make 121 2.5 polar);
    ("D"%char, Residue.make 133 (-3.5) negative);
    ("E"%char, Residue.make 147 (-3.5) negative);
    ("F"%char, Residue.make 165 2.8 nonpolar);
    ("G"%char, Residue.make 75 (-0.4) nonpolar);
    ("H"%char, Residue.make 155 (-3.2) positive);
    ("I"%char, Residue.make 131 4.5 nonpolar);
    ("K"%char, Residue.make 146 (-3.9) positive);
    ("L"%char, Residue.make 131 3.8 nonpolar);
    ("M"%char, Residue.make 149 1.9 nonpolar);
    ("N"%char, Residue.make 132 (-3.5) polar);
    ("P"%char, Residue.make 115 (-1.6) nonpolar);
    ("Q"%char, Residue.make 146 (-3.5) polar);
    ("R"%char, Residue.make 174 (-4.5) positive);
    ("S"%char, Residue.make 105 (-0.8) polar);
    ("T"%char, Residue.make 119 (-0.7) polar);
    ("V"%char, Residue.make 117 4.2 nonpolar);
    ("W"%char, Residue.make 204 (-0.9) nonpolar);
    ("Y"%char, Residue.make 181 (-1.3) polar) ].

(** [d[aa]] *)
Fixpoint getitem (d : list (ascii * Residue.t)) (aa : ascii) : result Residue.t :=
  match d with
  | [] => Raise KeyError
  | (key, r) :: d' => if Ascii.eqb key aa then Ok r else getitem d' aa
  end.

(** [sorted_aas = sorted(amino_acids.keys())] *)
Definition sorted_aas : list ascii := sorted (map fst amino_acids).

(** ** 2. The validity predicate *)

(** Lines 36-38: the loop over the windows of three consecutive residues.
    [triple_at sequence i] is the test of line 37, a chained comparison;
    [repeat_found] is [true] when the loop reaches its [return False].
    Every index that the loop reads is below [len(sequence)], so the
    default of [nth] is never used. *)
Definition triple_at (sequence : list ascii) (i : nat) : bool :=
  let at_ (j : nat) := nth j sequence "000"%char in
  Ascii.eqb (at_ i) (at_ (i + 1)%nat) && Ascii.eqb (at_ (i + 1)%nat) (at_ (i + 2)%nat).

Definition repeat_found (sequence : list ascii) : bool :=
  existsb (triple_at sequence) (seq 0 (Z.to_nat (len sequence - 2))).

Definition is_valid_peptide (sequence : list ascii) : result bool :=
  if repeat_found sequence then Ok false
  else
    masses <- mapM (fun aa => r <- getitem amino_acids aa ;; Ok (Residue.mass r)) sequence ;;
    let mass := sum_int masses in
    hydros <- mapM (fun aa => r <- getitem amino_acids aa ;; Ok (Residue.hydrophobicity r)) sequence ;;
    avg_hydro <- truediv_float_int (sum_float hydros) (len sequence) ;;
    polarities <- mapM (fun aa => r <- getitem amino_acids aa ;; Ok (Residue.polarity r)) sequence ;;
    let nonpolar_count := len (filter (fun p => polarity_eqb p nonpolar) polarities) in
    if negb ((500 <=? mass) && (mass <=? 2000)) then Ok false
    else if (avg_hydro <=? 1.0)%float then Ok false
    else
      ratio <- truediv_int_int nonpolar_count (len sequence) ;;
      if (0.5 <? ratio)%float then Ok false
      else Ok true.

(** ** 3. The generator *)

Module Candidate.

Record t : Type := make
  { sequence : string;
    mass : Z;
    hydrophobicity : float;
    nonpolar_ratio : float }.

End Candidate.

(** Lines 70-79: the record appended for a valid [seq]. *)
Definition make_candidate (k : Z) (seq : list ascii) : result Candidate.t :=
  let seq_str := string_of_list_ascii seq in
  masses <- mapM (fun aa => r <- getitem amino_acids aa ;; Ok (Residue.mass r)) seq ;;
  let mass := sum_int masses in
  hydros <- mapM (fun aa => r <- getitem amino_acids aa ;; Ok (Residue.hydrophobicity r)) seq ;;
  hydro <- truediv_float_int (sum_float hydros) k ;;
  polarities <- mapM (fun aa => r <- getitem amino_acids aa ;; Ok (Residue.polarity r)) seq ;;
  nonpolar <- truediv_int_int (len (filter (fun p => polarity_eqb p nonpolar) polarities)) k ;;
  Ok (Candidate.make seq_str mass (round2 hydro) (round2 nonpolar)).

(** Lines 68-81: the loop over the enumerated sequences, with its [break]. *)
Fixpoint collect (k max_results : Z) (seqs : list (list ascii))
    (results : list Candidate.t) : result (list Candidate.t) :=
  match seqs with
  | [] => Ok results
  | seq :: rest =>
      valid <- is_valid_peptide seq ;;
      if valid : bool then
        c <- make_candidate k seq ;;
        let results := results ++ [c] in
        if max_results <=? len results then Ok results
        else collect k max_results rest results
      else collect k max_results rest results
  end.

(** What one call produces: the rows of the returned table, and the two
    statistics of lines 84-85. *)
Record report : Type :=
  { results : list Candidate.t;
    total_sequences : Z;
    valid_ratio : num }.

Definition generate_peptides (k max_results : Z) : result report :=
  seqs <- product sorted_aas k ;;
  results <- collect k max_results seqs [] ;;
  let total_sequences := len sorted_aas ^ k in
  valid_ratio <-
    (if max_results =? 0 then Ok (Int 0)
     else
       r <- truediv_int_int (len results) max_results ;;
       Ok (Float (round2 (r * 100)%float))) ;;
  Ok {| results := results;
        total_sequences := total_sequences;
        valid_ratio := valid_ratio |}.

(** ** An equivalent depth-first enumeration

    [walk] visits the same sequences in the same order as [collect] run on
    [product_nat sorted_aas n], without building the list of all tuples, and
    descends no further once the loop has left through its [break] or an
    exception. It is used to evaluate [generate_peptides] on concrete
    arguments ([generate_peptides_walk_eq]). *)

Definition visit (k max_results : Z) (st : result (list Candidate.t * bool))
    (seq : list ascii) : result (list Candidate.t * bool) :=
  match st with
  | Ok (results, false) =>
      valid <- is_valid_peptide seq ;;
      if valid : bool then
        c <- make_candidate k seq ;;
        let results := results ++ [c] in
        Ok (results, max_results <=? len results)
      else Ok (results, false)
  | _ => st
  end.

Fixpoint walk (k max_results : Z) (pool : list ascii) (n : nat)
    (prefix_rev : list ascii) (st : result (list Candidate.t * bool))
    : result (list Candidate.t * bool) :=
  match st with
  | Ok (_, false) =>
      match n with
      | O => visit k max_results st (rev prefix_rev)
      | S n' =>
          fold_left (fun st a => walk k max_results pool n' (a :: prefix_rev) st) pool st
      end
  | _ => st
  end.

(** The rows of a finished walk. *)
Definition finish (st : result (list Candidate.t * bool)) : result (list Candidate.t) :=
  st <- st ;; Ok (fst st).

(** [generate_peptides] with the loop run by [walk]. *)
Definition generate_peptides_walk (k max_results : Z) : result report :=
  if k <? 0 then Raise ValueError
  else
    results <- finish (walk k max_results sorted_aas (Z.to_nat k) [] (Ok ([], false))) ;;
    let total_sequences := len sorted_aas ^ k in
    valid_ratio <-
      (if max_results =? 0 then Ok (Int 0)
       else
         r <- truediv_int_int (len results) max_results ;;
         Ok (Float (round2 (r * 100)%float))) ;;
    Ok {| results := results;
          total_sequences := total_sequences;
          valid_ratio := valid_ratio |}.

(** ** Vocabulary of the specification *)

(** A code of the catalog. *)
Definition known (aa : ascii) : Prop := In aa sorted_aas.

(** A sequence that the generator enumerates for length [k]. *)
Definition enumerable (k : Z) (seq : list ascii) : Prop :=
  len seq = k /\ Forall known seq.

(** Three identical consecutive codes somewhere in the sequence. *)
Definition has_run3 (sequence : list ascii) : Prop :=
  exists l1 a l2, sequence = l1 ++ a :: a :: a :: l2.

(** The sequence is accepted: the predicate returns [True]. *)
Definition accepts (seq : list ascii) : bool :=
  match is_valid_peptide seq with
  | Ok true => true
  | _ => false
  end.

(** The number of accepted sequences among all those of length [k]. *)
Definition valid_count (k : Z) : Z :=
  len (filter accepts (product_nat sorted_aas (Z.to_nat k))).

(** The value of a call that returns. *)
Definition returned {A : Type} (default : A) (m : result A) : A :=
  match m with
  | Ok a => a
  | Raise _ => default
  end.

Definition residue (aa : ascii) : Residue.t :=
  returned (Residue.make 0 0 polar) (getitem amino_acids aa).

Definition candidate_of (k : Z) (seq : list ascii) : Candidate.t :=
  returned (Candidate.make "" 0 0 0) (make_candidate k seq).

(** The properties of a sequence as the predicate computes them. *)
Definition total_mass (seq : list ascii) : Z :=
  sum_int (map (fun aa => Residue.mass (residue aa)) seq).

Definition hydrophobicities (seq : list ascii) : list float :=
  map (fun aa => Residue.hydrophobicity (residue aa)) seq.

Definition avg_hydro (seq : list ascii) : float :=
  (sum_float (hydrophobicities seq) / float_of_int (len seq))%float.

Definition nonpolar_count (seq : list ascii) : Z :=
  len (filter (fun p => polarity_eqb p nonpolar)
         (map (fun aa => Residue.polarity (residue aa)) seq)).

Definition nonpolar_fraction (seq : list ascii) : float :=
  (float_of_int (nonpolar_count seq) / float_of_int (len seq))%float.

(** The four tests of the predicate, as it evaluates them. *)
Definition passes (seq : list ascii) : bool :=
  negb (repeat_found seq)
  && ((500 <=? total_mass seq) && (total_mass seq <=? 2000))
  && negb (avg_hydro seq <=? 1.0)%float
  && negb (0.5 <? nonpolar_fraction seq)%float.

(** The hydrophobicity of a residue as the decimal number that the table
    writes, in tenths: the integer nearest to ten times the binary64 value.
    [hydrophobicity_is_decimal] checks that every entry of the table is the
    binary64 value of that decimal. *)
Definition tenths (x : float) : Z :=
  match Prim2SF x with
  | S754_finite s m e =>
      let num := Zpos m * 10 * 2 ^ Z.max e 0 in
      let den := 2 ^ Z.max (- e) 0 in
      let n := (2 * num + den) / (2 * den) in
      if s then - n else n
  | _ => 0
  end.

(** The exact sum of the residues' hydrophobicities, in tenths. *)
Definition hydrophobicity_tenths (seq : list ascii) : Z :=
  sum_int (map tenths (hydrophobicities seq)).

(** The four conditions of the specification, over exact numbers: no run of
    three, a mass within [500, 2000], a mean hydrophobicity above 1.0 (the
    tenths add up to more than ten per residue), and at most half of the
    residues nonpolar. *)
Definition four_conditions (seq : list ascii) : Prop :=
  ~ has_run3 seq
  /\ 500 <= total_mass seq <= 2000
  /\ 10 * len seq < hydrophobicity_tenths seq
  /\ 2 * nonpolar_count seq <= len seq.

(** [sum(xs)] over [float]s as CPython 3.12 and later compute it: Neumaier's
    compensated summation, the compensation added at the end when it is
    nonzero and finite. *)
Definition sum_float_compensated (xs : list float) : float :=
  let step (acc : float * float) (x : float) : float * float :=
    let (f, c) := acc in
    let t := (f + x)%float in
    if (PrimFloat.abs x <=? PrimFloat.abs f)%float
    then (t, (c + ((f - t) + x))%float)
    else (t, (c + ((x - t) + f))%float) in
  let (f, c) := fold_left step xs (0%float, 0%float) in
  if negb (c =? 0)%float && negb (is_nan c) && negb (is_infinity c)
  then (f + c)%float
  else f.

(** Python's order on strings, strict; and the order of two sequences,
    which is that of their joined strings. *)
Definition str_lt (s t : string) : Prop := String.ltb s t = true.

Definition seq_lt (s t : list ascii) : Prop :=
  str_lt (string_of_list_ascii s) (string_of_list_ascii t).

(** How many candidates the loop still appends when [n] are collected: the
    cap is compared only after an append, so at least one. *)
Definition room (max_results n : Z) : nat := Z.to_nat (Z.max 1 (max_results - n)).

(** The sequences that a call collects: the first [room] accepted ones, in
    the order of the enumeration. *)
Definition selected (k max_results : Z) : list (list ascii) :=
  firstn (room max_results 0)
    (filter accepts (product_nat sorted_aas (Z.to_nat k))).

(** Line 85. *)
Definition ratio_of (max_results count : Z) : num :=
  if max_results =? 0 then Int 0
  else Float (round2 (float_of_int count / float_of_int max_results * 100)%float).

(** What the scenario with [k = 7] requires of a returned record, as a
    proposition and as a test. *)
Definition scenario_ok (c : Candidate.t) : Prop :=
  500 <= Candidate.mass c <= 2000
  /\ (1.0 <? Candidate.hydrophobicity c)%float = true
  /\ (Candidate.nonpolar_ratio c <=? 0.5)%float = true
  /\ ~ has_run3 (list_ascii_of_string (Candidate.sequence c)).

Definition scenario_okb (c : Candidate.t) : bool :=
  (500 <=? Candidate.mass c) && (Candidate.mass c <=? 2000)
  && (1.0 <? Candidate.hydrophobicity c)%float
  && (Candidate.nonpolar_ratio c <=? 0.5)%float
  && negb (repeat_found (list_ascii_of_string (Candidate.sequence c))).

(** A sequence of seven codes whose hydrophobicities, as the table writes
    them, add up to exactly 7.0: 4.2 + 4.2 + 2.5 + 4.2 - 3.5 - 3.9 - 0.7. *)
Definition boundary_peptide : list ascii := list_ascii_of_string "VVCVDKT".

(** ** Tests used by the further properties *)

(** Every residue of the table weighs between 75 and 204, and at least 105
    when it is not nonpolar. *)
Definition residue_bounds_ok : bool :=
  forallb
    (fun aa =>
       let r := residue aa in
       (75 + (if polarity_eqb (Residue.polarity r) nonpolar then 0 else 30)
        <=? Residue.mass r)
       && (Residue.mass r <=? 204))
    sorted_aas.

(** For every count [c] out of a length [n] of at most 26, the binary64
    quotient [c / n] exceeds 0.5 exactly when [2 * c > n], and its rounding
    to two decimals is at most 0.5 when [2 * c <= n]. *)
Definition fraction_table_ok : bool :=
  forallb
    (fun n =>
       forallb
         (fun c =>
            let q := (float_of_int (Z.of_nat c) / float_of_int (Z.of_nat n))%float in
            Bool.eqb (0.5 <? q)%float (Z.of_nat n <? 2 * Z.of_nat c)
            && implb (2 * Z.of_nat c <=? Z.of_nat n) (round2 q <=? 0.5)%float)
         (seq 0 (S n)))
    (seq 1 26).

(** ** The partial sums that line 41 can reach

    A partial sum of hydrophobicities is kept with the exact sum, in tenths,
    of the same terms. [sums_step R] holds every state that one more residue
    reaches from a state of [R]; the lists are kept in ascending order of
    the float so that equal states meet and are merged. *)

Definition sum_state : Type := (float * Z)%type.

Definition same_state (a b : sum_state) : bool :=
  PrimFloat.Leibniz.eqb (fst a) (fst b) && (snd a =? snd b).

Fixpoint merge_union (l1 : list sum_state) : list sum_state -> list sum_state :=
  match l1 with
  | [] => fun l2 => l2
  | a :: l1' =>
      fix inner (l2 : list sum_state) : list sum_state :=
        match l2 with
        | [] => l1
        | b :: l2' =>
            if (fst a <? fst b)%float then a :: merge_union l1' l2
            else if (fst b <? fst a)%float then b :: inner l2'
            else if same_state a b then a :: merge_union l1' l2'
            else a :: b :: merge_union l1' l2'
        end
  end.

Fixpoint dedupe (l : list sum_state) : list sum_state :=
  match l with
  | a :: (b :: _) as t => if same_state a b then dedupe t else a :: dedupe t
  | _ => l
  end.

(** The hydrophobicity of each code of the alphabet, with its tenths. *)
Definition hydro_steps : list sum_state :=
  map (fun aa => let x := Residue.hydrophobicity (residue aa) in (x, tenths x))
      sorted_aas.

Definition advance (vt s : sum_state) : sum_state :=
  ((fst s + fst vt)%float, snd s + snd vt).

Definition sums_step (R : list sum_state) : list sum_state :=
  fold_left (fun acc vt => merge_union acc (dedupe (map (advance vt) R)))
    hydro_steps [].

(** On a state reached after [i] residues, the test of line 47 and the
    exact mean agree away from the threshold: a sum that passes the test is
    at least [i], and a sum above [i] passes it. *)
Definition boundary_ok (i : Z) (s : sum_state) : bool :=
  let pass := negb (fst s / float_of_int i <=? 1.0)%float in
  implb pass (10 * i <=? snd s) && implb (10 * i <? snd s) pass.

(** On a state reached after [i] residues, a mean that passes the test of
    line 47 is rounded by line 77 to at least 1.0. *)
Definition rounded_ok (i : Z) (s : sum_state) : bool :=
  let mean := (fst s / float_of_int i)%float in
  if (mean <=? 1.0)%float then true else (1.0 <=? round2 mean)%float.

(** [ok] on every state reached after [i + 1], ..., [i + n] residues from
    the states of [R]. *)
Fixpoint check_levels (ok : Z -> sum_state -> bool) (n : nat) (i : Z)
    (R : list sum_state) : bool :=
  match n with
  | O => true
  | S n' =>
      let R' := sums_step R in
      forallb (ok (i + 1)) R' && check_levels ok n' (i + 1) R'
  end.

(** ** Lengths: a lower bound on the mass, and a valid sequence per length *)

(** Per residue, 33 times the mass covers 3226, plus 16 per tenth of
    hydrophobicity above 1.0, plus 527 when the residue is not nonpolar and
    minus 527 when it is. *)
Definition certificate_ok : bool :=
  forallb
    (fun aa =>
       let r := residue aa in
       3226 + 16 * (tenths (Residue.hydrophobicity r) - 10)
       + 527 * (if polarity_eqb (Residue.polarity r) nonpolar then -1 else 1)
       <=? 33 * Residue.mass r)
    sorted_aas.

(** A sequence of length [k] that the predicate accepts, for [k] from 4 to
    20. *)
Definition valid_example (k : Z) : list ascii :=
  if k =? 4 then list_ascii_of_string "ACCW"
  else firstn (Z.to_nat k) (list_ascii_of_string "CCGGCCGGCCGGCCGGCCGG").

Definition valid_examples_ok : bool :=
  forallb
    (fun i =>
       let k := Z.of_nat i in
       (len (valid_example k) =? k)
       && forallb (fun aa => existsb (Ascii.eqb aa) sorted_aas) (valid_example k)
       && accepts (valid_example k))
    (seq 4 17).

(** * Properties *)

(** ** Examples *)

Example sorted_aas_eq :
  sorted_aas = list_ascii_of_string "ACDEFGHIKLMNPQRSTVWY".
Proof. reflexivity. Qed.

Example product_two_letters :
  product (list_ascii_of_string "AC") 2
  = Ok (map list_ascii_of_string ["AA"; "AC"; "CA"; "CC"]%string).
Proof. reflexivity. Qed.

Example round2_half_even :
  (round2 0.125 = 0.12 /\ round2 0.375 = 0.38 /\ round2 2.675 = 2.67)%float.
Proof. repeat split. Qed.

Example first_valid_of_length_4 :
  is_valid_peptide (list_ascii_of_string "ACCW") = Ok true
  /\ make_candidate 4 (list_ascii_of_string "ACCW")
     = Ok (Candidate.make "ACCW" 535 1.47 0.5).
Proof. split; reflexivity. Qed.

Example unknown_code_raises :
  is_valid_peptide (list_ascii_of_string "ACZW") = Raise KeyError.
Proof. reflexivity. Qed.

Example short_scan :
  generate_peptides 2 3
  = Ok {| results := []; total_sequences := 400; valid_ratio := Float 0 |}.
Proof. reflexivity. Qed.

(** ** The catalog and the alphabet *)

Lemma len_sorted_aas : len sorted_aas = 20.
Proof. reflexivity. Qed.

Lemma getitem_known (aa : ascii) :
  known aa -> getitem amino_acids aa = Ok (residue aa).
Proof.
  unfold known. rewrite sorted_aas_eq. simpl.
  intros H.
  repeat (destruct H as [<- | H]; [reflexivity |]).
  contradiction.
Qed.

(** Membership in the catalog, decided by a test. *)
Lemma known_by_test (seq : list ascii) :
  forallb (fun aa => existsb (Ascii.eqb aa) sorted_aas) seq = true ->
  Forall known seq.
Proof.
  intros H. apply Forall_forall. intros aa Hin.
  rewrite forallb_forall in H. specialize (H aa Hin).
  apply existsb_exists in H. destruct H as (b & Hb & Heq).
  apply Ascii.eqb_eq in Heq. subst b. exact Hb.
Qed.

Lemma hydrophobicity_is_decimal :
  Forall (fun entry =>
            let x := Residue.hydrophobicity (snd entry) in
            x = (float_of_int (tenths x) / 10)%float)
         amino_acids.
Proof. repeat constructor. Qed.

Lemma sorted_aas_increasing :
  StronglySorted (fun a b => Ascii.ltb a b = true) sorted_aas.
Proof. rewrite sorted_aas_eq. simpl. repeat constructor. Qed.

(** ** Lengths and the error monad *)

Lemma len_nil {A : Type} : len (@nil A) = 0.
Proof. reflexivity. Qed.

Lemma len_cons {A : Type} (x : A) (xs : list A) : len (x :: xs) = len xs + 1.
Proof. unfold len. simpl List.length. lia. Qed.

Lemma len_app {A : Type} (xs ys : list A) : len (xs ++ ys) = len xs + len ys.
Proof. unfold len. rewrite length_app. lia. Qed.

Lemma len_nonneg {A : Type} (xs : list A) : 0 <= len xs.
Proof. unfold len. lia. Qed.

Lemma len_map {A B : Type} (f : A -> B) (xs : list A) : len (map f xs) = len xs.
Proof. unfold len. rewrite length_map. reflexivity. Qed.

Lemma len_zero_nil {A : Type} (xs : list A) : len xs = 0 -> xs = [].
Proof.
  destruct xs; [reflexivity |].
  rewrite len_cons. pose proof (len_nonneg xs). lia.
Qed.

Lemma mapM_getitem {B : Type} (f : Residue.t -> B) (seq : list ascii) :
  Forall known seq ->
  mapM (fun aa => r <- getitem amino_acids aa ;; Ok (f r)) seq
  = Ok (map (fun aa => f (residue aa)) seq).
Proof.
  induction 1 as [| aa seq Haa _ IH]; cbn [mapM map].
  - reflexivity.
  - rewrite (getitem_known aa Haa). cbn [bind]. rewrite IH. reflexivity.
Qed.

Lemma firstn_In {A : Type} (n : nat) (l : list A) (x : A) :
  In x (firstn n l) -> In x l.
Proof.
  revert l. induction n as [| n IH]; intros [| a l]; simpl; try contradiction.
  intros [H | H]; [left; exact H | right; apply IH, H].
Qed.

(** ** The repeat check (condition a) *)

Lemma triple_at_run (l1 l2 : list ascii) (a : ascii) :
  triple_at (l1 ++ a :: a :: a :: l2) (List.length l1) = true.
Proof.
  unfold triple_at.
  rewrite !app_nth2 by lia.
  replace (List.length l1 - List.length l1)%nat with 0%nat by lia.
  replace (List.length l1 + 1 - List.length l1)%nat with 1%nat by lia.
  replace (List.length l1 + 2 - List.length l1)%nat with 2%nat by lia.
  simpl. rewrite Ascii.eqb_refl. reflexivity.
Qed.

Lemma triple_at_inv (sequence : list ascii) (i : nat) :
  (i + 2 < List.length sequence)%nat ->
  triple_at sequence i = true ->
  has_run3 sequence.
Proof.
  intros Hi Ht.
  destruct (nth_split sequence "000"%char (n := i)) as (l1 & l2 & Hseq & Hlen); [lia |].
  assert (Hl2 : (2 <= List.length l2)%nat).
  { apply (f_equal (@List.length ascii)) in Hseq.
    rewrite length_app in Hseq. simpl in Hseq. lia. }
  destruct l2 as [| b [| c l3]]; simpl in Hl2; try lia.
  unfold triple_at in Ht.
  apply andb_true_iff in Ht. destruct Ht as [H1 H2].
  apply Ascii.eqb_eq in H1, H2.
  set (a := nth i sequence "000"%char) in *.
  assert (Hb : nth (i + 1) sequence "000"%char = b).
  { rewrite Hseq. rewrite app_nth2 by lia.
    replace (i + 1 - List.length l1)%nat with 1%nat by lia. reflexivity. }
  assert (Hc : nth (i + 2) sequence "000"%char = c).
  { rewrite Hseq. rewrite app_nth2 by lia.
    replace (i + 2 - List.length l1)%nat with 2%nat by lia. reflexivity. }
  exists l1, a, l3.
  rewrite Hseq. f_equal. congruence.
Qed.

Lemma repeat_found_iff (sequence : list ascii) :
  repeat_found sequence = true <-> has_run3 sequence.
Proof.
  unfold repeat_found. rewrite existsb_exists. split.
  - intros (i & Hin & Ht).
    apply in_seq in Hin. unfold len in Hin.
    apply triple_at_inv with (i := i); [lia | exact Ht].
  - intros (l1 & a & l2 & ->).
    exists (List.length l1). split.
    + apply in_seq. unfold len. rewrite length_app. simpl. lia.
    + apply triple_at_run.
Qed.

Lemma repeat_found_false_iff (sequence : list ascii) :
  repeat_found sequence = false <-> ~ has_run3 sequence.
Proof.
  rewrite <- repeat_found_iff.
  destruct (repeat_found sequence); split; intros H; congruence.
Qed.

Lemma repeat_found_short (sequence : list ascii) :
  (List.length sequence <= 2)%nat -> repeat_found sequence = false.
Proof.
  intros H. unfold repeat_found, len.
  replace (Z.to_nat (Z.of_nat (List.length sequence) - 2)) with 0%nat by lia.
  reflexivity.
Qed.

(** ** The validity predicate on the sequences of the catalog *)

Lemma is_valid_peptide_nil : is_valid_peptide [] = Raise ZeroDivisionError.
Proof. reflexivity. Qed.

Lemma is_valid_peptide_run3 (sequence : list ascii) :
  has_run3 sequence -> is_valid_peptide sequence = Ok false.
Proof.
  intros H. apply repeat_found_iff in H.
  unfold is_valid_peptide. rewrite H. reflexivity.
Qed.

Lemma is_valid_peptide_known (seq : list ascii) :
  seq <> [] -> Forall known seq ->
  is_valid_peptide seq = Ok (passes seq).
Proof.
  intros Hne Hk.
  assert (Hlen : (len seq =? 0) = false).
  { apply Z.eqb_neq. intros H. apply Hne, len_zero_nil, H. }
  unfold is_valid_peptide, passes.
  destruct (repeat_found seq); [reflexivity |].
  rewrite !mapM_getitem by exact Hk. cbn [bind].
  unfold truediv_float_int, truediv_int_int. rewrite Hlen. cbn [bind].
  fold (total_mass seq). fold (hydrophobicities seq). fold (avg_hydro seq).
  fold (nonpolar_count seq). fold (nonpolar_fraction seq).
  destruct ((500 <=? total_mass seq) && (total_mass seq <=? 2000));
    [| reflexivity].
  destruct (avg_hydro seq <=? 1.0)%float; [reflexivity |].
  destruct (0.5 <? nonpolar_fraction seq)%float; reflexivity.
Qed.

Lemma accepts_known (seq : list ascii) :
  seq <> [] -> Forall known seq -> accepts seq = passes seq.
Proof.
  intros Hne Hk. unfold accepts.
  rewrite (is_valid_peptide_known seq Hne Hk).
  destruct (passes seq); reflexivity.
Qed.

Lemma make_candidate_known (k : Z) (seq : list ascii) :
  k <> 0 -> Forall known seq ->
  make_candidate k seq = Ok (candidate_of k seq)
  /\ Candidate.sequence (candidate_of k seq) = string_of_list_ascii seq.
Proof.
  intros Hk Hseq.
  assert (E : make_candidate k seq
              = Ok (Candidate.make (string_of_list_ascii seq) (total_mass seq)
                      (round2 (sum_float (hydrophobicities seq) / float_of_int k)%float)
                      (round2 (float_of_int (nonpolar_count seq) / float_of_int k)%float))).
  { unfold make_candidate.
    rewrite !mapM_getitem by exact Hseq. cbn [bind].
    unfold truediv_float_int, truediv_int_int.
    apply Z.eqb_neq in Hk. rewrite Hk. reflexivity. }
  unfold candidate_of. rewrite E. split; reflexivity.
Qed.

(** ** The enumeration *)

Section Product.

Context {A : Type}.
Variable pool : list A.

Lemma product_nat_length (n : nat) (s : list A) :
  In s (product_nat pool n) -> List.length s = n.
Proof.
  revert s. induction n as [| n IH]; simpl; intros s H.
  - destruct H as [<- | []]. reflexivity.
  - apply in_flat_map in H. destruct H as (a & _ & H).
    apply in_map_iff in H. destruct H as (t & <- & Ht).
    simpl. f_equal. apply IH, Ht.
Qed.

Lemma product_nat_elements (n : nat) (s : list A) :
  In s (product_nat pool n) -> Forall (fun a => In a pool) s.
Proof.
  revert s. induction n as [| n IH]; simpl; intros s H.
  - destruct H as [<- | []]. constructor.
  - apply in_flat_map in H. destruct H as (a & Ha & H).
    apply in_map_iff in H. destruct H as (t & <- & Ht).
    constructor; [exact Ha | apply IH, Ht].
Qed.

Lemma product_nat_complete (s : list A) :
  Forall (fun a => In a pool) s -> In s (product_nat pool (List.length s)).
Proof.
  induction 1 as [| a s Ha _ IH]; simpl.
  - left. reflexivity.
  - apply in_flat_map. exists a. split; [exact Ha |].
    apply in_map, IH.
Qed.

End Product.

Lemma product_enumerable (k : Z) (seq : list ascii) :
  0 <= k ->
  In seq (product_nat sorted_aas (Z.to_nat k)) <-> enumerable k seq.
Proof.
  intros Hk. unfold enumerable, known, len. split.
  - intros H. split.
    + rewrite (product_nat_length _ _ _ H). lia.
    + apply (product_nat_elements _ _ _ H).
  - intros [Hlen Hin].
    replace (Z.to_nat k) with (List.length seq) by lia.
    apply product_nat_complete, Hin.
Qed.

Lemma enumerable_nonempty (k : Z) (seq : list ascii) :
  1 <= k -> enumerable k seq -> seq <> [] /\ Forall known seq.
Proof.
  intros Hk [Hlen Hin]. split; [| exact Hin].
  intros ->. rewrite len_nil in Hlen. lia.
Qed.

(** ** The loop *)

Section Loop.

Variables k max_results : Z.

Lemma collect_spec (seqs : list (list ascii)) (acc : list Candidate.t) :
  k <> 0 ->
  Forall (fun seq => seq <> [] /\ Forall known seq) seqs ->
  collect k max_results seqs acc
  = Ok (acc ++ map (candidate_of k)
                 (firstn (room max_results (len acc)) (filter accepts seqs))).
Proof.
  intros Hk Hseqs. revert acc.
  induction Hseqs as [| seq rest [Hne Hkn] _ IH]; intros acc.
  - cbn [collect filter]. rewrite firstn_nil. cbn [map].
    rewrite app_nil_r. reflexivity.
  - cbn [collect filter]. unfold accepts at 1.
    rewrite (is_valid_peptide_known seq Hne Hkn). cbn [bind].
    destruct (passes seq).
    + destruct (make_candidate_known k seq Hk Hkn) as [-> _]. cbn [bind].
      rewrite len_app, len_cons, len_nil.
      destruct (Z.leb_spec max_results (len acc + (0 + 1))) as [Hcap | Hcap].
      * replace (room max_results (len acc)) with 1%nat by (unfold room; lia).
        cbn [firstn map]. reflexivity.
      * rewrite IH. rewrite len_app, len_cons, len_nil.
        replace (room max_results (len acc))
          with (S (room max_results (len acc + (0 + 1))))
          by (unfold room; lia).
        cbn [firstn map]. rewrite <- app_assoc. reflexivity.
    + apply IH.
Qed.

Lemma fold_visit_stopped (seqs : list (list ascii)) (st : result (list Candidate.t * bool)) :
  match st with Ok (_, false) => False | _ => True end ->
  fold_left (visit k max_results) seqs st = st.
Proof.
  intros H. induction seqs as [| seq rest IH]; [reflexivity |].
  cbn [fold_left].
  destruct st as [[rs [|]] | e]; try contradiction; exact IH.
Qed.

Lemma collect_fold (seqs : list (list ascii)) (acc : list Candidate.t) :
  collect k max_results seqs acc
  = finish (fold_left (visit k max_results) seqs (Ok (acc, false))).
Proof.
  revert acc. induction seqs as [| seq rest IH]; intros acc.
  - reflexivity.
  - cbn [collect fold_left visit].
    destruct (is_valid_peptide seq) as [[|] | e]; cbn [bind].
    + destruct (make_candidate k seq) as [c | e]; cbn [bind].
      * destruct (max_results <=? len (acc ++ [c])).
        -- rewrite fold_visit_stopped by exact I. reflexivity.
        -- apply IH.
      * rewrite fold_visit_stopped by exact I. reflexivity.
    + apply IH.
    + rewrite fold_visit_stopped by exact I. reflexivity.
Qed.

Lemma walk_stopped (pool : list ascii) (n : nat) (p : list ascii)
    (st : result (list Candidate.t * bool)) :
  match st with Ok (_, false) => False | _ => True end ->
  walk k max_results pool n p st = st.
Proof.
  intros H. destruct n; destruct st as [[rs [|]] | e];
    try contradiction; reflexivity.
Qed.

Lemma walk_fold (pool : list ascii) (n : nat) (p : list ascii)
    (st : result (list Candidate.t * bool)) :
  walk k max_results pool n p st
  = fold_left (visit k max_results)
      (map (app (rev p)) (product_nat pool n)) st.
Proof.
  revert p st. induction n as [| n IH]; intros p st.
  - cbn [product_nat map fold_left]. rewrite app_nil_r.
    destruct st as [[rs [|]] | e]; reflexivity.
  - assert (Hrun : forall l st,
               fold_left (fun st a => walk k max_results pool n (a :: p) st) l st
               = fold_left (visit k max_results)
                   (map (app (rev p))
                      (flat_map (fun a => map (cons a) (product_nat pool n)) l)) st).
    { induction l as [| a l IHl]; intros st'.
      - reflexivity.
      - cbn [fold_left flat_map].
        rewrite map_app, fold_left_app, map_map.
        rewrite IHl, IH. cbn [rev].
        f_equal. f_equal. apply map_ext. intros s.
        rewrite <- app_assoc. reflexivity. }
    destruct st as [[rs [|]] | e].
    + rewrite walk_stopped by exact I.
      rewrite fold_visit_stopped by exact I. reflexivity.
    + apply Hrun.
    + rewrite walk_stopped by exact I.
      rewrite fold_visit_stopped by exact I. reflexivity.
Qed.

End Loop.

(** ** The generator, characterised *)

Lemma generate_peptides_walk_eq (k max_results : Z) :
  generate_peptides k max_results = generate_peptides_walk k max_results.
Proof.
  unfold generate_peptides, generate_peptides_walk, product.
  destruct (k <? 0); [reflexivity |]. cbn [bind].
  rewrite collect_fold, walk_fold. cbn [rev].
  rewrite (map_ext (app []) (fun s => s)) by reflexivity. rewrite map_id.
  reflexivity.
Qed.

Lemma selected_enumerable (k max_results : Z) :
  1 <= k -> Forall (enumerable k) (selected k max_results).
Proof.
  intros Hk. apply Forall_forall. intros seq Hin.
  unfold selected in Hin. apply firstn_In in Hin.
  apply filter_In in Hin. destruct Hin as [Hin _].
  apply product_enumerable in Hin; [exact Hin | lia].
Qed.

Lemma generate_peptides_spec (k max_results : Z) :
  1 <= k ->
  generate_peptides k max_results
  = Ok {| results := map (candidate_of k) (selected k max_results);
          total_sequences := 20 ^ k;
          valid_ratio := ratio_of max_results (len (selected k max_results)) |}.
Proof.
  intros Hk. unfold generate_peptides, product.
  destruct (Z.ltb_spec k 0) as [Hneg | _]; [lia |]. cbn [bind].
  rewrite collect_spec.
  - cbn [bind app]. rewrite len_sorted_aas, (@len_nil Candidate.t), len_map.
    fold (selected k max_results). unfold ratio_of, truediv_int_int.
    destruct (max_results =? 0); reflexivity.
  - lia.
  - apply Forall_forall. intros seq Hin.
    apply product_enumerable in Hin; [| lia].
    apply (enumerable_nonempty k seq Hk Hin).
Qed.

Lemma len_selected (k max_results : Z) :
  len (selected k max_results) = Z.min (Z.max 1 max_results) (valid_count k).
Proof.
  unfold selected, valid_count, len, room.
  rewrite length_firstn. rewrite Z.sub_0_r. lia.
Qed.

Lemma sequences_of_results (k max_results : Z) :
  1 <= k ->
  map Candidate.sequence (map (candidate_of k) (selected k max_results))
  = map string_of_list_ascii (selected k max_results).
Proof.
  intros Hk. rewrite map_map. apply map_ext_in. intros seq Hin.
  pose proof (selected_enumerable k max_results Hk) as Hall.
  rewrite Forall_forall in Hall. destruct (Hall seq Hin) as [_ Hkn].
  apply make_candidate_known; [lia | exact Hkn].
Qed.

(** ** Order *)

Section Sorted.

Context {A : Type}.
Variable R : A -> A -> Prop.

Lemma StronglySorted_append (l1 l2 : list A) :
  StronglySorted R l1 -> StronglySorted R l2 ->
  (forall x y, In x l1 -> In y l2 -> R x y) ->
  StronglySorted R (l1 ++ l2).
Proof.
  intros H1 H2 Hcross. induction H1 as [| a l1 Hs IH Ha]; simpl.
  - exact H2.
  - constructor.
    + apply IH. intros x y Hx Hy. apply Hcross; [right; exact Hx | exact Hy].
    + apply Forall_app. split; [exact Ha |].
      apply Forall_forall. intros y Hy. apply Hcross; [left; reflexivity | exact Hy].
Qed.

Lemma StronglySorted_filter (f : A -> bool) (l : list A) :
  StronglySorted R l -> StronglySorted R (filter f l).
Proof.
  induction 1 as [| a l Hs IH Ha]; simpl.
  - constructor.
  - destruct (f a); [| exact IH].
    constructor; [exact IH |].
    apply Forall_forall. intros y Hy. apply filter_In in Hy.
    rewrite Forall_forall in Ha. apply Ha, Hy.
Qed.

Lemma StronglySorted_firstn (n : nat) (l : list A) :
  StronglySorted R l -> StronglySorted R (firstn n l).
Proof.
  intros H. revert n. induction H as [| a l Hs IH Ha]; intros [| n]; simpl;
    try constructor.
  - apply IH.
  - apply Forall_forall. intros y Hy. apply firstn_In in Hy.
    rewrite Forall_forall in Ha. apply Ha, Hy.
Qed.

Lemma StronglySorted_map_iff {B : Type} (g : B -> A) (l : list B) :
  StronglySorted R (map g l) <-> StronglySorted (fun x y => R (g x) (g y)) l.
Proof.
  induction l as [| b l IH]; simpl.
  - split; constructor.
  - split; intros H; apply StronglySorted_inv in H; destruct H as [Hs Hb];
      constructor; try (apply IH; exact Hs).
    + rewrite Forall_map in Hb. exact Hb.
    + rewrite Forall_map. exact Hb.
Qed.

Lemma StronglySorted_weaken (R' : A -> A -> Prop) (l : list A) :
  (forall x y, R x y -> R' x y) ->
  StronglySorted R l -> StronglySorted R' l.
Proof.
  intros Himp. induction 1 as [| a l Hs IH Ha]; constructor.
  - exact IH.
  - apply Forall_impl with (P := R a); [apply Himp | exact Ha].
Qed.

End Sorted.

Lemma seq_lt_head (a b : ascii) (s t : list ascii) :
  Ascii.ltb a b = true -> seq_lt (a :: s) (b :: t).
Proof.
  unfold seq_lt, str_lt, String.ltb, Ascii.ltb. simpl.
  destruct (Ascii.compare a b); intros H; try discriminate H; reflexivity.
Qed.

Lemma seq_lt_tail (a : ascii) (s t : list ascii) :
  seq_lt s t -> seq_lt (a :: s) (a :: t).
Proof.
  unfold seq_lt, str_lt, String.ltb. simpl.
  unfold Ascii.compare at 1. rewrite N.compare_refl. intros H. exact H.
Qed.

Lemma product_nat_sorted (pool : list ascii) (n : nat) :
  StronglySorted (fun a b => Ascii.ltb a b = true) pool ->
  StronglySorted seq_lt (product_nat pool n).
Proof.
  intros Hpool. induction n as [| n IH].
  - repeat constructor.
  - cbn [product_nat].
    assert (Hsub : forall l,
               StronglySorted (fun a b => Ascii.ltb a b = true) l ->
               StronglySorted seq_lt
                 (flat_map (fun a => map (cons a) (product_nat pool n)) l)).
    { induction 1 as [| a l Hs IHl Ha]; cbn [flat_map].
      - constructor.
      - apply StronglySorted_append.
        + apply StronglySorted_map_iff.
          apply StronglySorted_weaken with (R := seq_lt); [| exact IH].
          intros x y. apply seq_lt_tail.
        + exact IHl.
        + intros x y Hx Hy.
          apply in_map_iff in Hx. destruct Hx as (s & <- & _).
          apply in_flat_map in Hy. destruct Hy as (b & Hb & Hy).
          apply in_map_iff in Hy. destruct Hy as (t & <- & _).
          apply seq_lt_head.
          rewrite Forall_forall in Ha. apply Ha, Hb. }
    apply Hsub, Hpool.
Qed.

Lemma selected_sorted (k max_results : Z) :
  StronglySorted seq_lt (selected k max_results).
Proof.
  unfold selected.
  apply StronglySorted_firstn, StronglySorted_filter, product_nat_sorted.
  exact sorted_aas_increasing.
Qed.

(** ** The scenario test *)

Lemma scenario_okb_sound (c : Candidate.t) :
  scenario_okb c = true -> scenario_ok c.
Proof.
  unfold scenario_okb, scenario_ok. intros H.
  repeat (apply andb_true_iff in H; destruct H as [H ?]).
  repeat split; try assumption.
  - apply Z.leb_le. assumption.
  - apply Z.leb_le. assumption.
  - apply repeat_found_false_iff. apply negb_true_iff. assumption.
Qed.

(** ** Evaluating a call

    A call with [k >= 1] is characterised by [generate_peptides_spec]; the
    tactic states the result and leaves what is claimed of it. *)
Ltac by_spec Hk :=
  eexists; split; [apply (generate_peptides_spec _ _ Hk) |];
  cbn [results total_sequences valid_ratio].

(** ** The boundary peptide *)

Lemma boundary_peptide_enumerable : enumerable 7 boundary_peptide.
Proof. split; [reflexivity | apply known_by_test; reflexivity]. Qed.

(** The running sum of line 41 on the boundary peptide, item by item. *)
Example boundary_peptide_running_sum :
  (0 + 4.2 = 4.2
   /\ 4.2 + 4.2 = 8.4
   /\ 8.4 + 2.5 = 10.9
   /\ 10.9 + 4.2 = 15.100000000000001
   /\ 15.100000000000001 + -3.5 = 11.600000000000001
   /\ 11.600000000000001 + -3.9 = 7.700000000000001
   /\ 7.700000000000001 + -0.7 = 7.000000000000001
   /\ 7.000000000000001 / 7 = 1.0000000000000002)%float.
Proof. repeat split. Qed.

(** Its hydrophobicities add up to 7.000000000000001 from left to right,
    and with CPython 3.12's compensation as well: the binary64 values of
    4.2, 3.9 and 0.7 are off their decimals by more than the sum can
    absorb. *)
Lemma boundary_peptide_sums :
  sum_float (hydrophobicities boundary_peptide) = 7.000000000000001%float
  /\ sum_float_compensated (hydrophobicities boundary_peptide)
     = 7.000000000000001%float
  /\ avg_hydro boundary_peptide = 1.0000000000000002%float.
Proof. repeat split. Qed.

(** * The claims *)

(** C1. The predicate is not equivalent to the four conditions read over
    the numbers that the table writes. [boundary_peptide] is a sequence of
    the catalog without a run of three, with a mass of 870 and three
    nonpolar residues out of seven; its mean hydrophobicity is exactly 1.0
    (70 tenths over 7 residues), which is not strictly greater than 1.0, so
    the four conditions do not hold. The binary64 sum of its hydrophobicities
    is 7.000000000000001, the mean 1.0000000000000002, and the predicate
    returns [True]; the record built for it stores a hydrophobicity of 1.0.
    On every nonempty sequence of the catalog the predicate is the
    conjunction of its four tests as binary64 arithmetic evaluates them. *)
Theorem boundary_mean_is_accepted :
  (forall seq, seq <> [] -> Forall known seq ->
     is_valid_peptide seq = Ok (passes seq))
  /\ enumerable 7 boundary_peptide
  /\ is_valid_peptide boundary_peptide = Ok true
  /\ hydrophobicity_tenths boundary_peptide = 10 * len boundary_peptide
  /\ ~ four_conditions boundary_peptide
  /\ make_candidate 7 boundary_peptide
     = Ok (Candidate.make "VVCVDKT" 870 1.0 0.43)
  /\ ~ (forall seq, seq <> [] -> Forall known seq ->
          (is_valid_peptide seq = Ok true <-> four_conditions seq)).
Proof.
  assert (Hvalid : is_valid_peptide boundary_peptide = Ok true) by reflexivity.
  assert (Hnot : ~ four_conditions boundary_peptide).
  { intros (_ & _ & Hmean & _). vm_compute in Hmean. discriminate Hmean. }
  split; [exact is_valid_peptide_known |].
  split; [exact boundary_peptide_enumerable |].
  split; [exact Hvalid |].
  split; [reflexivity |].
  split; [exact Hnot |].
  split; [reflexivity |].
  intros Hiff. apply Hnot.
  apply (Hiff boundary_peptide).
  - discriminate.
  - apply boundary_peptide_enumerable.
  - exact Hvalid.
Qed.

(** C2. For [k >= 1] and [max_results >= 1] the call returns, the sequences
    of the returned candidates are in strictly increasing lexicographic
    order, and so are the whole enumeration and the alphabet it is built
    on. *)
Theorem generate_peptides_sorted (k max_results : Z) :
  1 <= k -> 1 <= max_results ->
  exists r,
    generate_peptides k max_results = Ok r
    /\ StronglySorted str_lt (map Candidate.sequence (results r))
    /\ StronglySorted str_lt
         (map string_of_list_ascii (product_nat sorted_aas (Z.to_nat k)))
    /\ StronglySorted (fun a b => Ascii.ltb a b = true) sorted_aas.
Proof.
  intros Hk _. by_spec Hk.
  rewrite (sequences_of_results k max_results Hk).
  split; [| split].
  - apply StronglySorted_map_iff. apply selected_sorted.
  - apply StronglySorted_map_iff. apply product_nat_sorted, sorted_aas_increasing.
  - exact sorted_aas_increasing.
Qed.

Lemma generate_peptides_sorted_witness :
  exists r,
    generate_peptides 4 2 = Ok r
    /\ StronglySorted str_lt (map Candidate.sequence (results r))
    /\ StronglySorted str_lt
         (map string_of_list_ascii (product_nat sorted_aas (Z.to_nat 4)))
    /\ StronglySorted (fun a b => Ascii.ltb a b = true) sorted_aas.
Proof. apply (generate_peptides_sorted 4 2); lia. Defined.

(** C3. For [k >= 1] and [max_results >= 1] the returned list has at most
    [max_results] candidates, and when fewer than [max_results] sequences of
    length [k] are valid it has exactly as many candidates as there are
    valid sequences of that length. *)
Theorem generate_peptides_cap (k max_results : Z) :
  1 <= k -> 1 <= max_results ->
  exists r,
    generate_peptides k max_results = Ok r
    /\ len (results r) <= max_results
    /\ (valid_count k < max_results -> len (results r) = valid_count k).
Proof.
  intros Hk Hm. by_spec Hk.
  rewrite len_map, len_selected. split; lia.
Qed.

Example three_rows_of_length_4 :
  generate_peptides 4 3
  = Ok {| results := [Candidate.make "ACCW" 535 1.47 0.5;
                      Candidate.make "ACCY" 512 1.38 0.25;
                      Candidate.make "ACFY" 556 1.45 0.5];
          total_sequences := 160000;
          valid_ratio := Float 100 |}.
Proof. rewrite generate_peptides_walk_eq. vm_compute. reflexivity. Qed.

Lemma valid_count_4 : valid_count 4 = 5128.
Proof. vm_compute. reflexivity. Qed.

(** With [k = 4] and a cap of 3 the loop stops at the cap, after the third
    valid sequence; with a cap of 5129, above the 5128 valid sequences of
    length 4, the table holds all of them. *)
Lemma generate_peptides_cap_witness :
  (generate_peptides 4 3
   = Ok {| results := [Candidate.make "ACCW" 535 1.47 0.5;
                       Candidate.make "ACCY" 512 1.38 0.25;
                       Candidate.make "ACFY" 556 1.45 0.5];
           total_sequences := 160000;
           valid_ratio := Float 100 |}
   /\ len [Candidate.make "ACCW" 535 1.47 0.5;
           Candidate.make "ACCY" 512 1.38 0.25;
           Candidate.make "ACFY" 556 1.45 0.5] <= 3)
  /\ (exists r,
        generate_peptides 4 5129 = Ok r
        /\ len (results r) <= 5129
        /\ len (results r) = 5128).
Proof.
  split.
  - destruct (generate_peptides_cap 4 3) as (r & Hr & Hle & _); [lia | lia |].
    rewrite three_rows_of_length_4 in Hr.
    apply (f_equal (fun x => match x with Ok r' => r' | Raise _ => r end)) in Hr.
    cbn beta iota in Hr. rewrite <- Hr in Hle.
    split; [exact three_rows_of_length_4 | exact Hle].
  - destruct (generate_peptides_cap 4 5129) as (r & Hr & Hle & Hall); [lia | lia |].
    exists r. split; [exact Hr |]. split; [exact Hle |].
    rewrite <- valid_count_4. apply Hall. rewrite valid_count_4. lia.
Defined.

(** C4, as stated, fails: with [k = 4] and [max_results = 0] the call is
    not rejected; it enumerates and returns a table with one candidate. *)
Lemma zero_cap_is_not_rejected :
  generate_peptides 4 0
  = Ok {| results := [Candidate.make "ACCW" 535 1.47 0.5];
          total_sequences := 160000;
          valid_ratio := Int 0 |}
  /\ ~ (exists e, generate_peptides 4 0 = Raise e).
Proof.
  assert (E : generate_peptides 4 0
              = Ok {| results := [Candidate.make "ACCW" 535 1.47 0.5];
                      total_sequences := 160000;
                      valid_ratio := Int 0 |}).
  { rewrite generate_peptides_walk_eq. vm_compute. reflexivity. }
  split; [exact E |].
  intros [e He]. rewrite E in He. discriminate He.
Qed.

(** C4, amended. A negative [k] makes the call fail with [ValueError] when
    the enumeration is built, before any sequence is produced; [k = 0] makes
    it fail with [ZeroDivisionError] on the first sequence; in both cases no
    table is returned. With [k >= 1], a [max_results] below 1 is not
    rejected: the call returns a table of at most one candidate. *)
Theorem invalid_parameters (k max_results : Z) :
  (k < 0 -> product sorted_aas k = Raise ValueError
            /\ generate_peptides k max_results = Raise ValueError)
  /\ (k = 0 -> generate_peptides k max_results = Raise ZeroDivisionError)
  /\ (1 <= k -> max_results < 1 ->
      exists r, generate_peptides k max_results = Ok r /\ len (results r) <= 1).
Proof.
  split; [| split].
  - intros Hk. unfold generate_peptides, product.
    apply Z.ltb_lt in Hk. rewrite Hk. split; reflexivity.
  - intros ->. reflexivity.
  - intros Hk Hm. by_spec Hk.
    rewrite len_map, len_selected. lia.
Qed.

Lemma invalid_parameters_witness :
  (product sorted_aas (-1) = Raise ValueError
   /\ generate_peptides (-1) 50 = Raise ValueError)
  /\ generate_peptides 0 50 = Raise ZeroDivisionError
  /\ exists r, generate_peptides 4 0 = Ok r /\ len (results r) <= 1.
Proof.
  split; [| split].
  - apply (invalid_parameters (-1) 50). lia.
  - apply (invalid_parameters 0 50). reflexivity.
  - apply (invalid_parameters 4 0); lia.
Defined.

(** C5, as stated, fails: with [k = 4] and [max_results = 1] one candidate
    is collected, the quotient 1 / 1 is 1.0, and the reported ratio is
    100.0. *)
Lemma valid_ratio_is_not_the_quotient :
  exists r,
    generate_peptides 4 1 = Ok r
    /\ truediv_int_int (len (results r)) 1 = Ok 1%float
    /\ valid_ratio r = Float 100
    /\ valid_ratio r <> Float 1.
Proof.
  eexists. split; [rewrite generate_peptides_walk_eq; vm_compute; reflexivity |].
  cbn [results valid_ratio]. repeat split.
  intros H.
  apply (f_equal (fun n => match n with
                           | Float x => PrimFloat.eqb x 1
                           | Int _ => true
                           end)) in H.
  vm_compute in H. discriminate H.
Qed.

(** C5, amended. For [k >= 1] and [max_results >= 1] the reported validation
    ratio is a percentage: the number of collected candidates divided by
    [max_results], times 100, rounded to two decimals. *)
Theorem valid_ratio_formula (k max_results : Z) :
  1 <= k -> 1 <= max_results ->
  exists r q,
    generate_peptides k max_results = Ok r
    /\ truediv_int_int (len (results r)) max_results = Ok q
    /\ valid_ratio r = Float (round2 (q * 100)).
Proof.
  intros Hk Hm. eexists. eexists.
  split; [apply (generate_peptides_spec k max_results Hk) |].
  cbn [results valid_ratio]. unfold truediv_int_int, ratio_of.
  destruct (Z.eqb_spec max_results 0) as [H0 | _]; [lia |].
  rewrite len_map. split; reflexivity.
Qed.

Lemma valid_ratio_formula_witness :
  exists r q,
    generate_peptides 4 3 = Ok r
    /\ truediv_int_int (len (results r)) 3 = Ok q
    /\ valid_ratio r = Float (round2 (q * 100)).
Proof. apply (valid_ratio_formula 4 3); lia. Defined.

(** C6. With [k = 7] and [max_results = 50] over the twenty residues, the
    call returns at most 50 records, and each has a stored mass within
    [500, 2000], a stored hydrophobicity above 1.0, a stored nonpolar ratio
    of at most 0.5, and a sequence without three identical consecutive
    characters. *)
Theorem scenario_k7_cap50 :
  exists r,
    generate_peptides 7 50 = Ok r
    /\ len sorted_aas = 20
    /\ len (results r) <= 50
    /\ Forall scenario_ok (results r).
Proof.
  assert (E : exists r,
             generate_peptides_walk 7 50 = Ok r
             /\ ((len (results r) <=? 50) && forallb scenario_okb (results r))
                = true).
  { eexists. split; vm_compute; reflexivity. }
  destruct E as (r & Hr & Hok).
  apply andb_true_iff in Hok. destruct Hok as [Hlen Hall].
  exists r. rewrite generate_peptides_walk_eq. split; [exact Hr |].
  split; [reflexivity |]. split; [apply Z.leb_le, Hlen |].
  apply Forall_forall. intros c Hc.
  rewrite forallb_forall in Hall. apply scenario_okb_sound, Hall, Hc.
Qed.

(** The table of that call has exactly 50 rows, from AACACCD to AACATYC,
    and the reported ratio is 100.0. *)
Example scenario_k7_cap50_rows :
  exists r,
    generate_peptides 7 50 = Ok r
    /\ len (results r) = 50
    /\ hd_error (results r) = Some (Candidate.make "AACACCD" 763 1.34 0.43)
    /\ nth_error (results r) 49 = Some (Candidate.make "AACATYC" 809 1.2 0.43)
    /\ valid_ratio r = Float 100.
Proof.
  eexists. split; [rewrite generate_peptides_walk_eq; vm_compute; reflexivity |].
  repeat split.
Qed.

(** C7. A sequence with three identical consecutive codes is rejected; for
    a sequence without such a run the repeat loop finds nothing, and on the
    sequences of the catalog the verdict is then that of the three other
    tests; a sequence of length 1 or 2 has no such run. *)
Theorem repeat_rule :
  (forall seq, has_run3 seq -> is_valid_peptide seq = Ok false)
  /\ (forall seq, ~ has_run3 seq -> repeat_found seq = false)
  /\ (forall seq, ~ has_run3 seq -> seq <> [] -> Forall known seq ->
      is_valid_peptide seq
      = Ok ((500 <=? total_mass seq) && (total_mass seq <=? 2000)
            && negb (avg_hydro seq <=? 1.0)%float
            && negb (0.5 <? nonpolar_fraction seq)%float))
  /\ (forall seq, (1 <= List.length seq <= 2)%nat ->
      ~ has_run3 seq /\ repeat_found seq = false).
Proof.
  split; [| split; [| split]].
  - exact is_valid_peptide_run3.
  - intros seq H. apply repeat_found_false_iff, H.
  - intros seq H Hne Hk.
    rewrite (is_valid_peptide_known seq Hne Hk). unfold passes.
    apply repeat_found_false_iff in H. rewrite H. reflexivity.
  - intros seq H.
    assert (Hf : repeat_found seq = false) by (apply repeat_found_short; lia).
    split; [apply repeat_found_false_iff, Hf | exact Hf].
Qed.

Lemma repeat_rule_witness :
  is_valid_peptide (list_ascii_of_string "CCFFFCC") = Ok false
  /\ repeat_found (list_ascii_of_string "CCFF") = false
  /\ repeat_found (list_ascii_of_string "CC") = false.
Proof.
  destruct repeat_rule as (Hrun & Hpass & _ & Hshort).
  split; [| split].
  - apply Hrun.
    exists (list_ascii_of_string "CC"), "F"%char, (list_ascii_of_string "CC").
    reflexivity.
  - apply Hpass. apply repeat_found_false_iff. reflexivity.
  - apply Hshort. simpl. lia.
Defined.

(** C8. For [k >= 1], whatever the cap, the reported total is the size of
    the alphabet to the power [k], that is [20 ^ k]: it is computed from
    the alphabet, not counted over the scan. *)
Theorem total_sequences_power (k max_results : Z) :
  1 <= k ->
  exists r,
    generate_peptides k max_results = Ok r
    /\ total_sequences r = len sorted_aas ^ k
    /\ total_sequences r = 20 ^ k.
Proof.
  intros Hk. by_spec Hk.
  rewrite len_sorted_aas. split; reflexivity.
Qed.

Lemma total_sequences_power_witness :
  exists r,
    generate_peptides 7 1 = Ok r
    /\ total_sequences r = len sorted_aas ^ 7
    /\ total_sequences r = 20 ^ 7.
Proof. apply (total_sequences_power 7 1). lia. Defined.

(** C9. With [max_results = 0] and [k >= 1], when some sequence of length
    [k] over the catalog is valid, the returned list has exactly one
    candidate, and the reported ratio is the integer 0 (no division by the
    cap takes place). *)
Theorem zero_cap_collects_one (k : Z) (seq : list ascii) :
  1 <= k -> enumerable k seq -> is_valid_peptide seq = Ok true ->
  exists r,
    generate_peptides k 0 = Ok r
    /\ len (results r) = 1
    /\ valid_ratio r = Int 0.
Proof.
  intros Hk Hseq Hvalid. by_spec Hk.
  rewrite len_map, len_selected. split; [| reflexivity].
  assert (Hin : In seq (filter accepts (product_nat sorted_aas (Z.to_nat k)))).
  { apply filter_In. split.
    - apply product_enumerable; [lia | exact Hseq].
    - unfold accepts. rewrite Hvalid. reflexivity. }
  assert (1 <= valid_count k).
  { unfold valid_count, len.
    destruct (filter accepts (product_nat sorted_aas (Z.to_nat k)));
      [contradiction | simpl List.length; lia]. }
  lia.
Qed.

Lemma zero_cap_collects_one_witness :
  exists r,
    generate_peptides 4 0 = Ok r
    /\ len (results r) = 1
    /\ valid_ratio r = Int 0.
Proof.
  apply (zero_cap_collects_one 4 (list_ascii_of_string "ACCW")).
  - lia.
  - split; [reflexivity | apply known_by_test; reflexivity].
  - reflexivity.
Defined.

(** C10. On a nonempty sequence of catalog codes the predicate returns a
    boolean. On the empty sequence it divides by zero; [k = 0] enumerates
    exactly the empty tuple, so the call fails with [ZeroDivisionError]. *)
Theorem unguarded_division :
  (forall seq, seq <> [] -> Forall known seq ->
               exists b, is_valid_peptide seq = Ok b)
  /\ is_valid_peptide [] = Raise ZeroDivisionError
  /\ product sorted_aas 0 = Ok [[]]
  /\ (forall max_results, generate_peptides 0 max_results = Raise ZeroDivisionError).
Proof.
  split; [| split; [| split]].
  - intros seq Hne Hk. exists (passes seq). apply is_valid_peptide_known; assumption.
  - exact is_valid_peptide_nil.
  - reflexivity.
  - intros max_results. reflexivity.
Qed.

Lemma unguarded_division_witness :
  exists b, is_valid_peptide (list_ascii_of_string "ACCW") = Ok b.
Proof.
  destruct unguarded_division as (Hnonempty & _).
  apply Hnonempty.
  - discriminate.
  - apply known_by_test. reflexivity.
Defined.

(** * Further properties *)

From Stdlib Require Import Permutation.

(** ** The dictionary and [sorted] *)

Lemma getitem_In (d : list (ascii * Residue.t)) (aa : ascii) (r : Residue.t) :
  getitem d aa = Ok r -> In (aa, r) d.
Proof.
  induction d as [| [key r'] d IH]; cbn [getitem]; intros H.
  - discriminate H.
  - destruct (Ascii.eqb_spec key aa) as [-> | _].
    + injection H as ->. left. reflexivity.
    + right. apply IH, H.
Qed.

Lemma getitem_outcome (d : list (ascii * Residue.t)) (aa : ascii) :
  (In aa (map fst d) /\ exists r, getitem d aa = Ok r)
  \/ (~ In aa (map fst d) /\ getitem d aa = Raise KeyError).
Proof.
  induction d as [| [key r'] d IH]; cbn [getitem map fst In].
  - right. split; [tauto | reflexivity].
  - destruct (Ascii.eqb_spec key aa) as [-> | Hne].
    + left. split; [left; reflexivity | exists r'; reflexivity].
    + destruct IH as [[Hin Hr] | [Hout Hr]].
      * left. split; [right; exact Hin | exact Hr].
      * right. split; [tauto | exact Hr].
Qed.

Lemma In_insert_sorted (a b : ascii) (xs : list ascii) :
  In b (insert_sorted a xs) <-> b = a \/ In b xs.
Proof.
  induction xs as [| c xs IH]; cbn [insert_sorted].
  - simpl. intuition congruence.
  - destruct (Ascii.leb a c); simpl in *; intuition congruence.
Qed.

Lemma In_sorted (b : ascii) (xs : list ascii) : In b (sorted xs) <-> In b xs.
Proof.
  induction xs as [| a xs IH]; cbn [sorted fold_right].
  - tauto.
  - fold (sorted xs). rewrite In_insert_sorted, IH. simpl. intuition congruence.
Qed.

Lemma known_iff_key (aa : ascii) : known aa <-> In aa (map fst amino_acids).
Proof. unfold known, sorted_aas. apply In_sorted. Qed.

Lemma known_dec (aa : ascii) : {known aa} + {~ known aa}.
Proof. apply (in_dec ascii_dec). Defined.

Lemma getitem_unknown (aa : ascii) :
  ~ known aa -> getitem amino_acids aa = Raise KeyError.
Proof.
  intros H. destruct (getitem_outcome amino_acids aa) as [[Hin _] | [_ Hr]].
  - exfalso. apply H, known_iff_key, Hin.
  - exact Hr.
Qed.

Lemma mapM_getitem_unknown {B : Type} (f : Residue.t -> B) (seq : list ascii) :
  ~ Forall known seq ->
  mapM (fun aa => r <- getitem amino_acids aa ;; Ok (f r)) seq = Raise KeyError.
Proof.
  induction seq as [| aa seq IH]; intros H.
  - exfalso. apply H. constructor.
  - cbn [mapM]. destruct (known_dec aa) as [Hk | Hk].
    + rewrite (getitem_known aa Hk). cbn [bind].
      rewrite IH; [reflexivity |].
      intros Hall. apply H. constructor; assumption.
    + rewrite (getitem_unknown aa Hk). reflexivity.
Qed.

Lemma Forall_known_dec (seq : list ascii) : {Forall known seq} + {~ Forall known seq}.
Proof. apply Forall_dec, known_dec. Defined.

(** The outcome of the predicate on any sequence. *)
Lemma is_valid_peptide_outcome (seq : list ascii) :
  (has_run3 seq /\ is_valid_peptide seq = Ok false)
  \/ (~ has_run3 seq /\ ~ Forall known seq /\ is_valid_peptide seq = Raise KeyError)
  \/ (seq = [] /\ is_valid_peptide seq = Raise ZeroDivisionError)
  \/ (~ has_run3 seq /\ seq <> [] /\ Forall known seq
      /\ is_valid_peptide seq = Ok (passes seq)).
Proof.
  destruct (repeat_found seq) eqn:Hrun.
  - left. apply repeat_found_iff in Hrun.
    split; [exact Hrun | apply is_valid_peptide_run3, Hrun].
  - apply repeat_found_false_iff in Hrun. right.
    destruct (Forall_known_dec seq) as [Hk | Hk].
    + right. destruct seq as [| aa seq].
      * left. split; reflexivity.
      * right. split; [exact Hrun |]. split; [discriminate |]. split; [exact Hk |].
        apply is_valid_peptide_known; [discriminate | exact Hk].
    + left. split; [exact Hrun |]. split; [exact Hk |].
      unfold is_valid_peptide.
      apply repeat_found_false_iff in Hrun. rewrite Hrun.
      rewrite mapM_getitem_unknown by exact Hk. reflexivity.
Qed.

(** X1. The predicate raises [KeyError] exactly on the sequences that have
    no run of three and hold a code outside the table; it raises
    [ZeroDivisionError] exactly on the empty sequence; it raises nothing
    else. A run of three is reported before any code is looked up. *)
Theorem is_valid_peptide_errors (seq : list ascii) :
  (is_valid_peptide seq = Raise KeyError
   <-> ~ has_run3 seq /\ ~ Forall known seq)
  /\ (is_valid_peptide seq = Raise ZeroDivisionError <-> seq = [])
  /\ (forall e, is_valid_peptide seq = Raise e ->
                e = KeyError \/ e = ZeroDivisionError).
Proof.
  destruct (is_valid_peptide_outcome seq)
    as [[Hrun E] | [(Hrun & Hk & E) | [[Hnil E] | (Hrun & Hne & Hk & E)]]];
    rewrite E.
  - split; [| split].
    + split; [discriminate | tauto].
    + split; [discriminate |]. intros ->. exfalso.
      destruct Hrun as (l1 & a & l2 & H). destruct l1; discriminate H.
    + discriminate.
  - split; [| split].
    + split; [intros _; split; assumption | reflexivity].
    + split; [discriminate |]. intros ->. exfalso. apply Hk. constructor.
    + intros e H. injection H as <-. left. reflexivity.
  - split; [| split].
    + split; [discriminate |]. intros [_ Hk]. exfalso. apply Hk.
      rewrite Hnil. constructor.
    + split; [intros _; exact Hnil | reflexivity].
    + intros e H. injection H as <-. right. reflexivity.
  - split; [| split].
    + split; [discriminate | tauto].
    + split; [discriminate | intros H; contradiction].
    + discriminate.
Qed.

(** ** Masses, counts and the nonpolar test *)

Lemma sum_int_cons (x : Z) (xs : list Z) : sum_int (x :: xs) = x + sum_int xs.
Proof.
  unfold sum_int. cbn [fold_left].
  assert (H : forall l a, fold_left Z.add l a = a + fold_left Z.add l 0).
  { induction l as [| y l IH]; intros a; cbn [fold_left].
    - lia.
    - rewrite (IH (a + y)), (IH (0 + y)). lia. }
  rewrite H. lia.
Qed.

Lemma total_mass_cons (aa : ascii) (seq : list ascii) :
  total_mass (aa :: seq) = Residue.mass (residue aa) + total_mass seq.
Proof. unfold total_mass. cbn [map]. apply sum_int_cons. Qed.

Lemma nonpolar_count_cons (aa : ascii) (seq : list ascii) :
  nonpolar_count (aa :: seq)
  = (if polarity_eqb (Residue.polarity (residue aa)) nonpolar then 1 else 0)
    + nonpolar_count seq.
Proof.
  unfold nonpolar_count. cbn [map filter].
  destruct (polarity_eqb (Residue.polarity (residue aa)) nonpolar).
  - rewrite len_cons. lia.
  - lia.
Qed.

Lemma residue_bounds (aa : ascii) :
  known aa ->
  75 + (if polarity_eqb (Residue.polarity (residue aa)) nonpolar then 0 else 30)
  <= Residue.mass (residue aa) <= 204.
Proof.
  intros H.
  assert (Hall : residue_bounds_ok = true) by reflexivity.
  unfold residue_bounds_ok in Hall. rewrite forallb_forall in Hall.
  specialize (Hall aa H). cbv zeta in Hall.
  apply andb_true_iff in Hall. destruct Hall as [H1 H2].
  apply Z.leb_le in H1, H2. lia.
Qed.

Lemma mass_and_count_bounds (seq : list ascii) :
  Forall known seq ->
  0 <= nonpolar_count seq <= len seq
  /\ 75 * len seq + 30 * (len seq - nonpolar_count seq) <= total_mass seq
  /\ total_mass seq <= 204 * len seq.
Proof.
  induction 1 as [| aa seq Haa _ IH].
  - cbv. repeat split; discriminate.
  - rewrite total_mass_cons, nonpolar_count_cons, len_cons.
    pose proof (residue_bounds aa Haa) as Hb.
    destruct (polarity_eqb (Residue.polarity (residue aa)) nonpolar); lia.
Qed.

Lemma fraction_exact (c n : Z) :
  0 <= c <= n -> 1 <= n <= 26 ->
  (0.5 <? float_of_int c / float_of_int n)%float = (n <? 2 * c)
  /\ (2 * c <= n ->
      (round2 (float_of_int c / float_of_int n) <=? 0.5)%float = true).
Proof.
  intros Hc Hn.
  assert (Hall : fraction_table_ok = true) by (vm_compute; reflexivity).
  unfold fraction_table_ok in Hall. rewrite forallb_forall in Hall.
  assert (Hn' : In (Z.to_nat n) (seq 1 26)) by (apply in_seq; lia).
  specialize (Hall (Z.to_nat n) Hn').
  rewrite forallb_forall in Hall.
  assert (Hc' : In (Z.to_nat c) (seq 0 (S (Z.to_nat n)))) by (apply in_seq; lia).
  specialize (Hall (Z.to_nat c) Hc'). cbv zeta in Hall.
  rewrite !Z2Nat.id in Hall by lia.
  apply andb_true_iff in Hall.
  destruct Hall as [H1 H2]. split.
  - apply eqb_prop, H1.
  - intros Hle. apply Z.leb_le in Hle. rewrite Hle in H2. exact H2.
Qed.

(** On the sequences of the catalog whose mass passes, the nonpolar test of
    the predicate is the exact comparison. *)
Lemma nonpolar_test_exact (seq : list ascii) :
  Forall known seq -> 500 <= total_mass seq <= 2000 ->
  (0.5 <? nonpolar_fraction seq)%float = (len seq <? 2 * nonpolar_count seq).
Proof.
  intros Hk Hm.
  destruct (mass_and_count_bounds seq Hk) as (Hc & Hlo & Hhi).
  unfold nonpolar_fraction. apply fraction_exact; lia.
Qed.

Lemma accepted_inv (seq : list ascii) :
  is_valid_peptide seq = Ok true ->
  Forall known seq
  /\ ~ has_run3 seq
  /\ 500 <= total_mass seq <= 2000
  /\ (avg_hydro seq <=? 1.0)%float = false
  /\ 2 * nonpolar_count seq <= len seq.
Proof.
  intros Hv.
  destruct (is_valid_peptide_outcome seq)
    as [[_ E] | [(_ & _ & E) | [[_ E] | (Hrun & Hne & Hk & E)]]];
    rewrite E in Hv; try discriminate Hv.
  injection Hv as Hp. unfold passes in Hp.
  apply andb_true_iff in Hp. destruct Hp as [Hp Hfrac].
  apply andb_true_iff in Hp. destruct Hp as [Hp Hhydro].
  apply andb_true_iff in Hp. destruct Hp as [_ Hmass].
  apply andb_true_iff in Hmass. destruct Hmass as [Hlo Hhi].
  assert (Hm : 500 <= total_mass seq <= 2000).
  { split; apply Z.leb_le; assumption. }
  split; [exact Hk |]. split; [exact Hrun |]. split; [exact Hm |].
  split; [apply negb_true_iff; exact Hhydro |].
  rewrite (nonpolar_test_exact seq Hk Hm) in Hfrac.
  apply negb_true_iff, Z.ltb_ge in Hfrac. exact Hfrac.
Qed.

Lemma accepted_intro (seq : list ascii) :
  Forall known seq -> ~ has_run3 seq -> 500 <= total_mass seq <= 2000 ->
  (avg_hydro seq <=? 1.0)%float = false ->
  2 * nonpolar_count seq <= len seq ->
  is_valid_peptide seq = Ok true.
Proof.
  intros Hk Hrun Hm Hh Hn.
  assert (Hne : seq <> []).
  { intros ->. cbv in Hm. destruct Hm as [Hm _]. apply Hm. reflexivity. }
  rewrite (is_valid_peptide_known seq Hne Hk). f_equal. unfold passes.
  apply repeat_found_false_iff in Hrun. rewrite Hrun, Hh.
  rewrite (nonpolar_test_exact seq Hk Hm).
  destruct Hm as [Hlo Hhi].
  apply Z.leb_le in Hlo, Hhi. rewrite Hlo, Hhi.
  apply Z.ltb_ge in Hn. rewrite Hn. reflexivity.
Qed.

(** X2. The predicate returns [True] exactly on the sequences of table codes
    that have no run of three, a mass within [500, 2000], a binary64 mean
    hydrophobicity that is not at most 1.0, and at most half of their
    residues nonpolar: the nonpolar test, a float division compared with
    0.5, never differs from the exact comparison [2 * count <= length]. *)
Theorem is_valid_peptide_true_iff (seq : list ascii) :
  is_valid_peptide seq = Ok true
  <-> Forall known seq
      /\ ~ has_run3 seq
      /\ 500 <= total_mass seq <= 2000
      /\ (avg_hydro seq <=? 1.0)%float = false
      /\ 2 * nonpolar_count seq <= len seq.
Proof.
  split.
  - apply accepted_inv.
  - intros (Hk & Hrun & Hm & Hh & Hn). apply accepted_intro; assumption.
Qed.

Lemma is_valid_peptide_true_iff_witness :
  is_valid_peptide (list_ascii_of_string "CCFF") = Ok true.
Proof.
  apply (is_valid_peptide_true_iff (list_ascii_of_string "CCFF")).
  split; [apply known_by_test; reflexivity |].
  split; [apply repeat_found_false_iff; reflexivity |].
  split; [split; discriminate |].
  split; [reflexivity | discriminate].
Defined.

(** ** Lengths that hold no valid sequence *)

Lemma no_valid_triplet : filter accepts (product_nat sorted_aas 3) = [].
Proof. vm_compute. reflexivity. Qed.

Lemma accepted_length (seq : list ascii) :
  is_valid_peptide seq = Ok true -> 4 <= len seq <= 22.
Proof.
  intros Hv.
  destruct (accepted_inv seq Hv) as (Hk & _ & Hm & _ & Hn).
  destruct (mass_and_count_bounds seq Hk) as (Hc & Hlo & Hhi).
  assert (H3 : 3 <= len seq <= 22) by lia.
  destruct (Z.eq_dec (len seq) 3) as [E | E]; [| lia].
  exfalso.
  assert (Hin : In seq (filter accepts (product_nat sorted_aas 3))).
  { apply filter_In. split.
    - apply (product_enumerable 3 seq); [lia | split; assumption].
    - unfold accepts. rewrite Hv. reflexivity. }
  rewrite no_valid_triplet in Hin. exact Hin.
Qed.

Lemma selected_accepted (k max_results : Z) (seq : list ascii) :
  0 <= k -> In seq (selected k max_results) ->
  enumerable k seq /\ is_valid_peptide seq = Ok true.
Proof.
  intros Hk Hin. unfold selected in Hin.
  apply firstn_In, filter_In in Hin. destruct Hin as [Hin Hacc].
  split; [apply product_enumerable; assumption |].
  unfold accepts in Hacc.
  destruct (is_valid_peptide seq) as [[|] | e]; try discriminate Hacc.
  reflexivity.
Qed.

(** ** What a returned record holds *)

Lemma candidate_of_known (k : Z) (seq : list ascii) :
  k <> 0 -> Forall known seq ->
  candidate_of k seq
  = Candidate.make (string_of_list_ascii seq) (total_mass seq)
      (round2 (sum_float (hydrophobicities seq) / float_of_int k)%float)
      (round2 (float_of_int (nonpolar_count seq) / float_of_int k)%float).
Proof.
  intros Hk Hseq. unfold candidate_of, make_candidate.
  rewrite !mapM_getitem by exact Hseq. cbn [bind].
  unfold truediv_float_int, truediv_int_int.
  apply Z.eqb_neq in Hk. rewrite Hk. reflexivity.
Qed.

Lemma generate_peptides_returns (k max_results : Z) (r : report) :
  generate_peptides k max_results = Ok r -> 1 <= k.
Proof.
  intros H.
  destruct (Z.lt_trichotomy k 0) as [Hneg | [-> | Hpos]]; [| | lia].
  - unfold generate_peptides, product in H.
    apply Z.ltb_lt in Hneg. rewrite Hneg in H. discriminate H.
  - discriminate H.
Qed.

Lemma generate_peptides_results (k max_results : Z) (r : report) :
  generate_peptides k max_results = Ok r ->
  1 <= k /\ results r = map (candidate_of k) (selected k max_results)
  /\ total_sequences r = 20 ^ k.
Proof.
  intros H. pose proof (generate_peptides_returns k max_results r H) as Hk.
  rewrite (generate_peptides_spec k max_results Hk) in H.
  injection H as <-. repeat split. exact Hk.
Qed.

Lemma returned_record_fields (k max_results : Z) (r : report) (c : Candidate.t) :
  generate_peptides k max_results = Ok r ->
  In c (results r) ->
  exists seq,
    enumerable k seq
    /\ is_valid_peptide seq = Ok true
    /\ c = Candidate.make (string_of_list_ascii seq) (total_mass seq)
              (round2 (avg_hydro seq)) (round2 (nonpolar_fraction seq)).
Proof.
  intros Hgen Hin.
  destruct (generate_peptides_results k max_results r Hgen) as (Hk & Hres & _).
  rewrite Hres in Hin. apply in_map_iff in Hin. destruct Hin as (seq & <- & Hin).
  apply selected_accepted in Hin; [| lia]. destruct Hin as [Henum Hv].
  exists seq. split; [exact Henum |]. split; [exact Hv |].
  destruct Henum as [Hlen Hkn].
  rewrite (candidate_of_known k seq) by (lia || exact Hkn).
  rewrite <- Hlen. reflexivity.
Qed.

(** X4. Every record of a returned table comes from a sequence of length
    [k] over the table that the predicate accepts: its string is that
    sequence, its mass is the sum of the residue masses and lies within
    [500, 2000], the sequence has no run of three, the stored nonpolar
    ratio is the rounded fraction and is at most 0.5, and the stored
    hydrophobicity is the rounding of a mean that tested above 1.0. *)
Theorem returned_records_are_valid (k max_results : Z) (r : report) (c : Candidate.t) :
  generate_peptides k max_results = Ok r ->
  In c (results r) ->
  exists seq,
    Candidate.sequence c = string_of_list_ascii seq
    /\ enumerable k seq
    /\ is_valid_peptide seq = Ok true
    /\ ~ has_run3 seq
    /\ Candidate.mass c = total_mass seq
    /\ 500 <= Candidate.mass c <= 2000
    /\ Candidate.nonpolar_ratio c = round2 (nonpolar_fraction seq)
    /\ (Candidate.nonpolar_ratio c <=? 0.5)%float = true
    /\ Candidate.hydrophobicity c = round2 (avg_hydro seq)
    /\ (avg_hydro seq <=? 1.0)%float = false.
Proof.
  intros Hgen Hin.
  destruct (returned_record_fields k max_results r c Hgen Hin)
    as (seq & Henum & Hv & ->).
  destruct (accepted_inv seq Hv) as (Hkn & Hrun & Hm & Hh & Hn).
  destruct (mass_and_count_bounds seq Hkn) as (Hc & Hlo & Hhi).
  cbn [Candidate.sequence Candidate.mass Candidate.hydrophobicity
       Candidate.nonpolar_ratio].
  exists seq.
  split; [reflexivity |]. split; [exact Henum |].
  split; [exact Hv |]. split; [exact Hrun |]. split; [reflexivity |].
  split; [exact Hm |]. split; [reflexivity |].
  split; [| split; [reflexivity | exact Hh]].
  unfold nonpolar_fraction. apply fraction_exact; lia.
Qed.

Lemma returned_records_are_valid_witness :
  exists seq,
    Candidate.sequence (Candidate.make "ACCW" 535 1.47 0.5) = string_of_list_ascii seq
    /\ enumerable 4 seq
    /\ is_valid_peptide seq = Ok true
    /\ ~ has_run3 seq
    /\ Candidate.mass (Candidate.make "ACCW" 535 1.47 0.5) = total_mass seq
    /\ 500 <= Candidate.mass (Candidate.make "ACCW" 535 1.47 0.5) <= 2000
    /\ Candidate.nonpolar_ratio (Candidate.make "ACCW" 535 1.47 0.5)
       = round2 (nonpolar_fraction seq)
    /\ (Candidate.nonpolar_ratio (Candidate.make "ACCW" 535 1.47 0.5) <=? 0.5)%float
       = true
    /\ Candidate.hydrophobicity (Candidate.make "ACCW" 535 1.47 0.5)
       = round2 (avg_hydro seq)
    /\ (avg_hydro seq <=? 1.0)%float = false.
Proof.
  apply (returned_records_are_valid 4 1
           {| results := [Candidate.make "ACCW" 535 1.47 0.5];
              total_sequences := 160000;
              valid_ratio := Float 100 |}).
  - rewrite generate_peptides_walk_eq. vm_compute. reflexivity.
  - left. reflexivity.
Defined.

(** ** Which sequences a call returns *)

(** X5. The sequences of the returned rows are the first
    [max(1, max_results)] sequences of the enumeration that the predicate
    accepts, in the order of the enumeration; in particular the table has
    [min(max(1, max_results), valid_count k)] rows, for every cap, zero and
    negative ones included. *)
Theorem returned_sequences (k max_results : Z) (r : report) :
  generate_peptides k max_results = Ok r ->
  exists seqs,
    product sorted_aas k = Ok seqs
    /\ map Candidate.sequence (results r)
       = map string_of_list_ascii
           (firstn (Z.to_nat (Z.max 1 max_results)) (filter accepts seqs))
    /\ len (results r) = Z.min (Z.max 1 max_results) (valid_count k).
Proof.
  intros Hgen.
  destruct (generate_peptides_results k max_results r Hgen) as (Hk & Hres & _).
  exists (product_nat sorted_aas (Z.to_nat k)). split; [| split].
  - unfold product. destruct (Z.ltb_spec k 0); [lia | reflexivity].
  - rewrite Hres, (sequences_of_results k max_results Hk).
    unfold selected, room. rewrite Z.sub_0_r. reflexivity.
  - rewrite Hres, len_map. apply len_selected.
Qed.

Lemma returned_sequences_witness :
  exists seqs,
    product sorted_aas 4 = Ok seqs
    /\ map Candidate.sequence [Candidate.make "ACCW" 535 1.47 0.5]
       = map string_of_list_ascii (firstn (Z.to_nat (Z.max 1 0)) (filter accepts seqs))
    /\ len [Candidate.make "ACCW" 535 1.47 0.5] = Z.min (Z.max 1 0) (valid_count 4).
Proof.
  apply (returned_sequences 4 0
           {| results := [Candidate.make "ACCW" 535 1.47 0.5];
              total_sequences := 160000;
              valid_ratio := Int 0 |}).
  rewrite generate_peptides_walk_eq. vm_compute. reflexivity.
Defined.

Lemma seq_lt_asym (s t : list ascii) : seq_lt s t -> seq_lt t s -> False.
Proof.
  unfold seq_lt, str_lt, String.ltb. intros H1 H2.
  rewrite String.compare_antisym in H1.
  destruct (String.compare (string_of_list_ascii t) (string_of_list_ascii s));
    simpl in H1; discriminate.
Qed.

Lemma seq_lt_irrefl (s : list ascii) : ~ seq_lt s s.
Proof. intros H. exact (seq_lt_asym s s H H). Qed.

Section Prefix.

Context {A : Type}.
Variable R : A -> A -> Prop.
Hypothesis R_asym : forall x y, R x y -> R y x -> False.

Lemma firstn_lower_closed (n : nat) (l : list A) (x y : A) :
  StronglySorted R l ->
  In x l -> In y (firstn n l) -> R x y ->
  In x (firstn n l).
Proof.
  intros Hs. revert n. induction Hs as [| a l Hs IH Ha]; intros n Hx Hy Hxy.
  - contradiction.
  - destruct n as [| n]; [contradiction |].
    cbn [firstn] in *. destruct Hx as [-> | Hx]; [left; reflexivity |].
    right. destruct Hy as [-> | Hy].
    + exfalso. rewrite Forall_forall in Ha.
      exact (R_asym x y Hxy (Ha x Hx)).
    + apply IH; assumption.
Qed.

Lemma StronglySorted_NoDup (l : list A) :
  StronglySorted R l -> NoDup l.
Proof.
  induction 1 as [| a l Hs IH Ha]; constructor.
  - intros Hin. rewrite Forall_forall in Ha.
    exact (R_asym a a (Ha a Hin) (Ha a Hin)).
  - exact IH.
Qed.

End Prefix.

Lemma string_of_list_ascii_inj (s t : list ascii) :
  string_of_list_ascii s = string_of_list_ascii t -> s = t.
Proof.
  intros H. apply (f_equal list_ascii_of_string) in H.
  rewrite !list_ascii_of_string_of_list_ascii in H. exact H.
Qed.

(** X6. A call skips no valid sequence: when a row is returned, every
    accepted sequence of length [k] over the table that is
    lexicographically smaller than that row's sequence is returned too. *)
Theorem no_smaller_valid_sequence_is_skipped
    (k max_results : Z) (r : report) (c : Candidate.t) (seq : list ascii) :
  generate_peptides k max_results = Ok r ->
  In c (results r) ->
  enumerable k seq ->
  is_valid_peptide seq = Ok true ->
  str_lt (string_of_list_ascii seq) (Candidate.sequence c) ->
  In (string_of_list_ascii seq) (map Candidate.sequence (results r)).
Proof.
  intros Hgen Hin Henum Hv Hlt.
  destruct (generate_peptides_results k max_results r Hgen) as (Hk & Hres & _).
  rewrite Hres in *. rewrite (sequences_of_results k max_results Hk).
  apply in_map_iff in Hin. destruct Hin as (y & <- & Hy).
  assert (Hyk : Forall known y).
  { apply selected_accepted in Hy; [| lia]. apply Hy. }
  destruct (make_candidate_known k y) as [_ Hstr]; [lia | exact Hyk |].
  rewrite Hstr in Hlt.
  apply in_map. unfold selected in *.
  apply (firstn_lower_closed seq_lt seq_lt_asym) with (y := y).
  - apply StronglySorted_filter, product_nat_sorted, sorted_aas_increasing.
  - apply filter_In. split.
    + apply product_enumerable; [lia | exact Henum].
    + unfold accepts. rewrite Hv. reflexivity.
  - exact Hy.
  - exact Hlt.
Qed.

(** X7. No sequence appears twice in a returned table. *)
Theorem returned_sequences_are_distinct (k max_results : Z) (r : report) :
  generate_peptides k max_results = Ok r ->
  NoDup (map Candidate.sequence (results r)).
Proof.
  intros Hgen.
  destruct (generate_peptides_results k max_results r Hgen) as (Hk & Hres & _).
  rewrite Hres, (sequences_of_results k max_results Hk).
  apply (StronglySorted_NoDup str_lt).
  - intros s t H1 H2.
    apply (seq_lt_asym (list_ascii_of_string s) (list_ascii_of_string t));
      unfold seq_lt; rewrite !string_of_list_ascii_of_string; assumption.
  - apply StronglySorted_map_iff, selected_sorted.
Qed.

Lemma returned_sequences_are_distinct_witness :
  NoDup (map Candidate.sequence
           [Candidate.make "ACCW" 535 1.47 0.5;
            Candidate.make "ACCY" 512 1.38 0.25;
            Candidate.make "ACFY" 556 1.45 0.5]).
Proof.
  apply (returned_sequences_are_distinct 4 3
           {| results := [Candidate.make "ACCW" 535 1.47 0.5;
                          Candidate.make "ACCY" 512 1.38 0.25;
                          Candidate.make "ACFY" 556 1.45 0.5];
              total_sequences := 160000;
              valid_ratio := Float 100 |}).
  exact three_rows_of_length_4.
Defined.

(** X8. Raising the cap only appends rows: for [max_results <= cap], the
    table returned for [max_results] is the first [max(1, max_results)]
    rows of the table returned for [cap], and both calls report the same
    total. *)
Theorem smaller_cap_is_a_prefix (k max_results cap : Z) (r r' : report) :
  max_results <= cap ->
  generate_peptides k max_results = Ok r ->
  generate_peptides k cap = Ok r' ->
  results r = firstn (Z.to_nat (Z.max 1 max_results)) (results r')
  /\ total_sequences r = total_sequences r'.
Proof.
  intros Hle Hgen Hgen'.
  destruct (generate_peptides_results k max_results r Hgen) as (Hk & Hres & Htot).
  destruct (generate_peptides_results k cap r' Hgen') as (_ & Hres' & Htot').
  split; [| congruence].
  rewrite Hres, Hres', firstn_map. f_equal.
  unfold selected, room. rewrite !Z.sub_0_r, firstn_firstn. f_equal. lia.
Qed.

Lemma no_smaller_valid_sequence_is_skipped_witness :
  In (string_of_list_ascii (list_ascii_of_string "ACCW"))
     (map Candidate.sequence
        [Candidate.make "ACCW" 535 1.47 0.5; Candidate.make "ACCY" 512 1.38 0.25]).
Proof.
  apply (no_smaller_valid_sequence_is_skipped 4 2
           {| results := [Candidate.make "ACCW" 535 1.47 0.5;
                          Candidate.make "ACCY" 512 1.38 0.25];
              total_sequences := 160000;
              valid_ratio := Float 100 |}
           (Candidate.make "ACCY" 512 1.38 0.25)).
  - rewrite generate_peptides_walk_eq. vm_compute. reflexivity.
  - right. left. reflexivity.
  - split; [reflexivity | apply known_by_test; reflexivity].
  - reflexivity.
  - reflexivity.
Defined.

Lemma smaller_cap_is_a_prefix_witness :
  results {| results := [Candidate.make "ACCW" 535 1.47 0.5];
             total_sequences := 160000;
             valid_ratio := Float 100 |}
  = firstn (Z.to_nat (Z.max 1 1))
      (results {| results := [Candidate.make "ACCW" 535 1.47 0.5;
                              Candidate.make "ACCY" 512 1.38 0.25];
                  total_sequences := 160000;
                  valid_ratio := Float 100 |})
  /\ 160000 = 160000.
Proof.
  apply (smaller_cap_is_a_prefix 4 1 2
           {| results := [Candidate.make "ACCW" 535 1.47 0.5];
              total_sequences := 160000;
              valid_ratio := Float 100 |}
           {| results := [Candidate.make "ACCW" 535 1.47 0.5;
                          Candidate.make "ACCY" 512 1.38 0.25];
              total_sequences := 160000;
              valid_ratio := Float 100 |}).
  - lia.
  - rewrite generate_peptides_walk_eq. vm_compute. reflexivity.
  - rewrite generate_peptides_walk_eq. vm_compute. reflexivity.
Defined.

(** ** The enumeration, counted *)

Lemma product_nat_len {A : Type} (pool : list A) (n : nat) :
  len (product_nat pool n) = len pool ^ Z.of_nat n.
Proof.
  induction n as [| n IH].
  - reflexivity.
  - cbn [product_nat].
    assert (H : forall l,
               len (flat_map (fun a => map (cons a) (product_nat pool n)) l)
               = len l * len (product_nat pool n)).
    { induction l as [| a l IHl]; cbn [flat_map].
      - reflexivity.
      - rewrite len_app, len_map, IHl, len_cons. lia. }
    rewrite H, IH, Nat2Z.inj_succ, Z.pow_succ_r by lia. reflexivity.
Qed.

(** X9. The enumeration lists every sequence of length [k] over the twenty
    codes exactly once, [20 ^ k] sequences in all, and the total that a
    call reports is the number of sequences of its enumeration. *)
Theorem enumeration_is_exact (k : Z) (seqs : list (list ascii)) :
  product sorted_aas k = Ok seqs ->
  NoDup seqs
  /\ (forall seq, In seq seqs <-> enumerable k seq)
  /\ len seqs = 20 ^ k
  /\ (forall max_results r,
        generate_peptides k max_results = Ok r -> total_sequences r = len seqs).
Proof.
  unfold product. destruct (Z.ltb_spec k 0) as [Hneg | Hk]; [discriminate |].
  intros H. injection H as <-.
  assert (Hlen : len (product_nat sorted_aas (Z.to_nat k)) = 20 ^ k).
  { rewrite product_nat_len, len_sorted_aas, Z2Nat.id by lia. reflexivity. }
  split; [| split; [| split]].
  - apply (StronglySorted_NoDup seq_lt seq_lt_asym).
    apply product_nat_sorted, sorted_aas_increasing.
  - intros seq. apply product_enumerable, Hk.
  - exact Hlen.
  - intros max_results r Hgen.
    destruct (generate_peptides_results k max_results r Hgen) as (_ & _ & Htot).
    rewrite Hlen. exact Htot.
Qed.

Lemma enumeration_is_exact_witness :
  NoDup (product_nat sorted_aas 2)
  /\ (forall seq, In seq (product_nat sorted_aas 2) <-> enumerable 2 seq)
  /\ len (product_nat sorted_aas 2) = 20 ^ 2
  /\ (forall max_results r,
        generate_peptides 2 max_results = Ok r ->
        total_sequences r = len (product_nat sorted_aas 2)).
Proof. apply (enumeration_is_exact 2). reflexivity. Defined.

(** ** The alphabet does not depend on the order of the table *)

Lemma leb_true_N (a b : ascii) :
  Ascii.leb a b = true -> (N_of_ascii a <= N_of_ascii b)%N.
Proof.
  unfold Ascii.leb, Ascii.compare. intros H.
  destruct (N.compare_spec (N_of_ascii a) (N_of_ascii b));
    [lia | lia | discriminate H].
Qed.

Lemma leb_false_N (a b : ascii) :
  Ascii.leb a b = false -> (N_of_ascii b < N_of_ascii a)%N.
Proof.
  unfold Ascii.leb, Ascii.compare. intros H.
  destruct (N.compare_spec (N_of_ascii a) (N_of_ascii b));
    [discriminate H | discriminate H | assumption].
Qed.

Lemma N_of_ascii_inj (a b : ascii) : N_of_ascii a = N_of_ascii b -> a = b.
Proof.
  intros H. apply (f_equal ascii_of_N) in H.
  rewrite !ascii_N_embedding in H. exact H.
Qed.

Ltac order_facts :=
  repeat match goal with
         | H : Ascii.leb _ _ = true |- _ => apply leb_true_N in H
         | H : Ascii.leb _ _ = false |- _ => apply leb_false_N in H
         end.

Lemma insert_sorted_comm (a b : ascii) (xs : list ascii) :
  insert_sorted a (insert_sorted b xs) = insert_sorted b (insert_sorted a xs).
Proof.
  induction xs as [| c xs IH]; cbn [insert_sorted].
  - destruct (Ascii.leb a b) eqn:Hab, (Ascii.leb b a) eqn:Hba;
      try reflexivity; order_facts.
    + assert (a = b) by (apply N_of_ascii_inj; lia). subst. reflexivity.
    + lia.
  - destruct (Ascii.leb b c) eqn:Hbc, (Ascii.leb a c) eqn:Hac;
      cbn [insert_sorted]; rewrite ?Hbc, ?Hac;
      destruct (Ascii.leb a b) eqn:Hab, (Ascii.leb b a) eqn:Hba;
      try rewrite IH; try reflexivity; order_facts; try lia.
    assert (a = b) by (apply N_of_ascii_inj; lia). subst. reflexivity.
Qed.

Lemma sorted_permutation (xs ys : list ascii) :
  Permutation xs ys -> sorted xs = sorted ys.
Proof.
  induction 1 as [| a xs ys _ IH | a b xs | xs ys zs _ IH1 _ IH2];
    cbn [sorted fold_right].
  - reflexivity.
  - fold (sorted xs). fold (sorted ys). rewrite IH. reflexivity.
  - apply insert_sorted_comm.
  - congruence.
Qed.

(** X10. The alphabet is the same whatever order the entries of the table
    are written in: sorting the keys of any rearrangement of [amino_acids]
    gives [sorted_aas], and the codes of the alphabet are exactly the keys
    of the table. *)
Theorem alphabet_is_order_independent (d : list (ascii * Residue.t)) :
  Permutation d amino_acids ->
  sorted (map fst d) = sorted_aas
  /\ (forall aa, In aa sorted_aas <-> In aa (map fst d))
  /\ (forall aa, known aa <-> exists r, getitem amino_acids aa = Ok r).
Proof.
  intros Hperm.
  assert (Hkeys : Permutation (map fst d) (map fst amino_acids)).
  { apply Permutation_map, Hperm. }
  split; [| split].
  - apply sorted_permutation, Hkeys.
  - intros aa. unfold sorted_aas. rewrite In_sorted. split; intros H.
    + apply (Permutation_in aa (Permutation_sym Hkeys) H).
    + apply (Permutation_in aa Hkeys H).
  - intros aa. split.
    + intros H. exists (residue aa). apply getitem_known, H.
    + intros [r Hr].
      destruct (getitem_outcome amino_acids aa) as [[Hin _] | [_ E]].
      * apply known_iff_key, Hin.
      * rewrite E in Hr. discriminate Hr.
Qed.

Lemma alphabet_is_order_independent_witness :
  sorted (map fst (rev amino_acids)) = sorted_aas
  /\ (forall aa, In aa sorted_aas <-> In aa (map fst (rev amino_acids)))
  /\ (forall aa, known aa <-> exists r, getitem amino_acids aa = Ok r).
Proof.
  apply (alphabet_is_order_independent (rev amino_acids)).
  apply Permutation_sym, Permutation_rev.
Defined.

(** ** The hydrophobicity test and the exact mean *)

Lemma same_state_eq (a b : sum_state) : same_state a b = true -> a = b.
Proof.
  destruct a as [x s], b as [y t]. unfold same_state. cbn [fst snd].
  intros H. apply andb_true_iff in H. destruct H as [Hx Hs].
  apply FloatAxioms.Leibniz.eqb_spec in Hx. apply Z.eqb_eq in Hs.
  subst. reflexivity.
Qed.

Lemma merge_union_In (s : sum_state) (l1 l2 : list sum_state) :
  In s l1 \/ In s l2 -> In s (merge_union l1 l2).
Proof.
  revert l2. induction l1 as [| a l1 IH]; intros l2.
  - cbn [merge_union]. intros [[] | H]. exact H.
  - induction l2 as [| b l2 IH2].
    + cbn [merge_union]. intros [H | []]. exact H.
    + cbn [merge_union]. fold (merge_union l1).
      destruct (fst a <? fst b)%float.
      * intros [[<- | H] | H].
        -- left. reflexivity.
        -- right. apply IH. left. exact H.
        -- right. apply IH. right. exact H.
      * destruct (fst b <? fst a)%float.
        -- intros [H | [<- | H]].
           ++ right. apply IH2. left. exact H.
           ++ left. reflexivity.
           ++ right. apply IH2. right. exact H.
        -- destruct (same_state a b) eqn:Hsame.
           ++ apply same_state_eq in Hsame. subst b.
              intros [[<- | H] | [<- | H]].
              ** left. reflexivity.
              ** right. apply IH. left. exact H.
              ** left. reflexivity.
              ** right. apply IH. right. exact H.
           ++ intros [[<- | H] | [<- | H]].
              ** left. reflexivity.
              ** right. right. apply IH. left. exact H.
              ** right. left. reflexivity.
              ** right. right. apply IH. right. exact H.
Qed.

Lemma dedupe_In (s : sum_state) (l : list sum_state) :
  In s l -> In s (dedupe l).
Proof.
  induction l as [| a l IH]; [intros [] |].
  destruct l as [| b l].
  - intros H. exact H.
  - cbn [dedupe]. fold (dedupe (b :: l)).
    destruct (same_state a b) eqn:Hsame.
    + apply same_state_eq in Hsame. subst b.
      intros [<- | H]; apply IH; [left; reflexivity | exact H].
    + intros [<- | H]; [left; reflexivity | right; apply IH, H].
Qed.

Lemma sums_step_In (R : list sum_state) (s vt : sum_state) :
  In s R -> In vt hydro_steps -> In (advance vt s) (sums_step R).
Proof.
  intros Hs. unfold sums_step.
  assert (Hfold : forall vs acc,
             (In (advance vt s) acc \/ In vt vs) ->
             In (advance vt s)
                (fold_left (fun acc vt => merge_union acc (dedupe (map (advance vt) R)))
                   vs acc)).
  { induction vs as [| v vs IH]; intros acc H; cbn [fold_left].
    - destruct H as [H | []]. exact H.
    - apply IH. destruct H as [H | [-> | H]].
      + left. apply merge_union_In. left. exact H.
      + left. apply merge_union_In. right. apply dedupe_In, in_map, Hs.
      + right. exact H. }
  intros Hvt. apply Hfold. right. exact Hvt.
Qed.

Lemma hydro_step_known (aa : ascii) :
  known aa ->
  In (Residue.hydrophobicity (residue aa), tenths (Residue.hydrophobicity (residue aa)))
     hydro_steps.
Proof.
  intros H. unfold hydro_steps.
  apply (in_map (fun aa => let x := Residue.hydrophobicity (residue aa) in (x, tenths x))).
  exact H.
Qed.

Lemma check_levels_sound (ok : Z -> sum_state -> bool) (n : nat) :
  forall (i : Z) (R : list sum_state) (seq : list ascii) (s : sum_state),
    check_levels ok n i R = true -> In s R -> Forall known seq ->
    (1 <= List.length seq <= n)%nat ->
    ok (i + len seq)
      (fold_left PrimFloat.add (hydrophobicities seq) (fst s),
       snd s + sum_int (map tenths (hydrophobicities seq)))
    = true.
Proof.
  induction n as [| n IH]; intros i R seq s Hcheck Hs Hk Hlen; [lia |].
  destruct seq as [| aa seq]; [simpl in Hlen; lia |].
  cbn [check_levels] in Hcheck. apply andb_true_iff in Hcheck.
  destruct Hcheck as [Hnow Hlater].
  apply Forall_cons_iff in Hk. destruct Hk as [Haa Hk].
  pose proof (sums_step_In R s _ Hs (hydro_step_known aa Haa)) as Hnext.
  unfold hydrophobicities. cbn [map fold_left]. fold (hydrophobicities seq).
  rewrite sum_int_cons, len_cons.
  destruct seq as [| bb seq].
  - rewrite forallb_forall in Hnow. specialize (Hnow _ Hnext).
    cbn [hydrophobicities map fold_left]. rewrite len_nil.
    unfold sum_int at 1. cbn [fold_left].
    unfold advance in Hnow. cbn [fst snd] in Hnow.
    replace (i + (0 + 1)) with (i + 1) by lia.
    rewrite Z.add_0_r. exact Hnow.
  - specialize (IH (i + 1) (sums_step R) (bb :: seq) _ Hlater Hnext Hk).
    unfold advance in IH. cbn [fst snd] in IH.
    replace (i + (len (bb :: seq) + 1)) with (i + 1 + len (bb :: seq)) by lia.
    rewrite Z.add_assoc. apply IH. cbn [List.length] in *. lia.
Qed.

Lemma reachable_sums_checked : check_levels boundary_ok 22 0 [(0%float, 0)] = true.
Proof. vm_compute. reflexivity. Qed.

Lemma reachable_sums_rounded : check_levels rounded_ok 22 0 [(0%float, 0)] = true.
Proof. vm_compute. reflexivity. Qed.

Lemma hydrophobicity_test_off_threshold (seq : list ascii) :
  Forall known seq -> 1 <= len seq <= 22 ->
  ((avg_hydro seq <=? 1.0)%float = false ->
   10 * len seq <= hydrophobicity_tenths seq)
  /\ (10 * len seq < hydrophobicity_tenths seq ->
      (avg_hydro seq <=? 1.0)%float = false).
Proof.
  intros Hk Hlen.
  assert (H : boundary_ok (len seq)
                (sum_float (hydrophobicities seq), hydrophobicity_tenths seq)
              = true).
  { apply (check_levels_sound boundary_ok 22 0 [(0%float, 0)] seq (0%float, 0)
             reachable_sums_checked).
    - left. reflexivity.
    - exact Hk.
    - unfold len in Hlen. lia. }
  unfold boundary_ok in H. cbn [fst snd] in H. fold (avg_hydro seq) in H.
  apply andb_true_iff in H. destruct H as [H1 H2]. split.
  - intros Hpass. rewrite Hpass in H1. cbn [negb implb] in H1.
    apply Z.leb_le, H1.
  - intros Hgt. apply Z.ltb_lt in Hgt. rewrite Hgt in H2. cbn [implb] in H2.
    apply negb_true_iff, H2.
Qed.

Lemma rounded_mean_at_least_one (seq : list ascii) :
  Forall known seq -> 1 <= len seq <= 22 ->
  (avg_hydro seq <=? 1.0)%float = false ->
  (1.0 <=? round2 (avg_hydro seq))%float = true.
Proof.
  intros Hk Hlen Hpass.
  assert (H : rounded_ok (len seq)
                (sum_float (hydrophobicities seq), hydrophobicity_tenths seq)
              = true).
  { apply (check_levels_sound rounded_ok 22 0 [(0%float, 0)] seq (0%float, 0)
             reachable_sums_rounded).
    - left. reflexivity.
    - exact Hk.
    - unfold len in Hlen. lia. }
  unfold rounded_ok in H. cbn [fst snd] in H. fold (avg_hydro seq) in H.
  rewrite Hpass in H. exact H.
Qed.

(** X11. Away from the threshold the predicate is exact. A sequence of
    table codes that meets the four conditions over the numbers that the
    table writes (mean hydrophobicity strictly above 1.0) is accepted; and
    an accepted sequence meets them with a mean of at least 1.0. The
    predicate and the four conditions can differ only on sequences whose
    mean is exactly 1.0. *)
Theorem predicate_exact_off_threshold :
  (forall seq, Forall known seq -> four_conditions seq ->
               is_valid_peptide seq = Ok true)
  /\ (forall seq,
        is_valid_peptide seq = Ok true ->
        Forall known seq
        /\ ~ has_run3 seq
        /\ 500 <= total_mass seq <= 2000
        /\ 10 * len seq <= hydrophobicity_tenths seq
        /\ 2 * nonpolar_count seq <= len seq).
Proof.
  split.
  - intros seq Hk (Hrun & Hm & Hmean & Hn).
    destruct (mass_and_count_bounds seq Hk) as (Hc & Hlo & Hhi).
    apply accepted_intro; try assumption.
    apply hydrophobicity_test_off_threshold; [exact Hk | lia | exact Hmean].
  - intros seq Hv.
    destruct (accepted_inv seq Hv) as (Hk & Hrun & Hm & Hh & Hn).
    pose proof (accepted_length seq Hv) as Hlen.
    split; [exact Hk |]. split; [exact Hrun |]. split; [exact Hm |].
    split; [| exact Hn].
    apply hydrophobicity_test_off_threshold; [exact Hk | lia | exact Hh].
Qed.

Lemma predicate_exact_off_threshold_witness :
  is_valid_peptide (list_ascii_of_string "CCFF") = Ok true
  /\ 10 * len boundary_peptide <= hydrophobicity_tenths boundary_peptide.
Proof.
  destruct predicate_exact_off_threshold as [Hsuff Hnec].
  split.
  - apply Hsuff.
    + apply known_by_test. reflexivity.
    + split; [apply repeat_found_false_iff; reflexivity |].
      split; [split; discriminate |].
      split; [reflexivity | discriminate].
  - apply (Hnec boundary_peptide). reflexivity.
Defined.

(** ** The lengths that hold a valid sequence *)

Lemma hydrophobicity_tenths_cons (aa : ascii) (seq : list ascii) :
  hydrophobicity_tenths (aa :: seq)
  = tenths (Residue.hydrophobicity (residue aa)) + hydrophobicity_tenths seq.
Proof. unfold hydrophobicity_tenths, hydrophobicities. cbn [map]. apply sum_int_cons. Qed.

Lemma mass_certificate (seq : list ascii) :
  Forall known seq ->
  3226 * len seq
  + 16 * (hydrophobicity_tenths seq - 10 * len seq)
  + 527 * (len seq - 2 * nonpolar_count seq)
  <= 33 * total_mass seq.
Proof.
  induction 1 as [| aa seq Haa _ IH].
  - cbv. discriminate.
  - rewrite total_mass_cons, nonpolar_count_cons, hydrophobicity_tenths_cons, len_cons.
    assert (Hall : certificate_ok = true) by reflexivity.
    unfold certificate_ok in Hall. rewrite forallb_forall in Hall.
    specialize (Hall aa Haa). cbv zeta in Hall. apply Z.leb_le in Hall.
    destruct (polarity_eqb (Residue.polarity (residue aa)) nonpolar); lia.
Qed.

Lemma accepted_length_tight (seq : list ascii) :
  is_valid_peptide seq = Ok true -> 4 <= len seq <= 20.
Proof.
  intros Hv. pose proof (accepted_length seq Hv) as Hlen.
  destruct (accepted_inv seq Hv) as (Hk & _ & Hm & Hh & Hn).
  pose proof (mass_certificate seq Hk) as Hcert.
  assert (Hmean : 10 * len seq <= hydrophobicity_tenths seq).
  { apply hydrophobicity_test_off_threshold; [exact Hk | lia | exact Hh]. }
  lia.
Qed.

Lemma valid_example_accepted (k : Z) :
  4 <= k <= 20 ->
  enumerable k (valid_example k) /\ is_valid_peptide (valid_example k) = Ok true.
Proof.
  intros Hk.
  assert (Hall : valid_examples_ok = true) by (vm_compute; reflexivity).
  unfold valid_examples_ok in Hall. rewrite forallb_forall in Hall.
  assert (Hin : In (Z.to_nat k) (seq 4 17)) by (apply in_seq; lia).
  specialize (Hall _ Hin). cbv zeta in Hall. rewrite Z2Nat.id in Hall by lia.
  apply andb_true_iff in Hall. destruct Hall as [Hall Hacc].
  apply andb_true_iff in Hall. destruct Hall as [Hlen Hkn].
  split.
  - split; [apply Z.eqb_eq, Hlen | apply known_by_test, Hkn].
  - unfold accepts in Hacc.
    destruct (is_valid_peptide (valid_example k)) as [[|] | e];
      try discriminate Hacc. reflexivity.
Qed.

(** X3. Valid sequences exist exactly for the lengths 4 to 20: no sequence
    of another length is accepted (three residues cannot reach the mass and
    the other tests together; beyond twenty the mass exceeds 2000 once the
    mean hydrophobicity and the nonpolar cap are met), and each length from
    4 to 20 has an accepted sequence. So, for [k >= 1], the returned table
    is empty exactly when [k <= 3] or [k >= 21], whatever the cap. *)
Theorem lengths_with_valid_sequences :
  (forall seq, is_valid_peptide seq = Ok true -> 4 <= len seq <= 20)
  /\ (forall k, 4 <= k <= 20 ->
        exists seq, enumerable k seq /\ is_valid_peptide seq = Ok true)
  /\ (forall k max_results,
        1 <= k ->
        exists r,
          generate_peptides k max_results = Ok r
          /\ (results r = [] <-> k <= 3 \/ 21 <= k)).
Proof.
  split; [exact accepted_length_tight |].
  split; [intros k Hk; exists (valid_example k); apply valid_example_accepted, Hk |].
  intros k max_results Hk. by_spec Hk.
  destruct (selected k max_results) as [| seq rest] eqn:E; cbn [map].
  - split; [| reflexivity]. intros _.
    destruct (Z_le_gt_dec k 3) as [H3 | H3]; [left; exact H3 |].
    destruct (Z_le_gt_dec 21 k) as [H21 | H21]; [right; exact H21 |].
    exfalso.
    destruct (valid_example_accepted k) as [Henum Hv]; [lia |].
    assert (Hin : In (valid_example k)
                    (filter accepts (product_nat sorted_aas (Z.to_nat k)))).
    { apply filter_In. split.
      - apply product_enumerable; [lia | exact Henum].
      - unfold accepts. rewrite Hv. reflexivity. }
    unfold selected, room in E.
    destruct (filter accepts (product_nat sorted_aas (Z.to_nat k)));
      [contradiction |].
    replace (Z.to_nat (Z.max 1 (max_results - 0)))
      with (S (Z.to_nat (Z.max 1 (max_results - 0)) - 1)) in E by lia.
    discriminate E.
  - split; [discriminate |]. intros Hout. exfalso.
    assert (Hin : In seq (selected k max_results)) by (rewrite E; left; reflexivity).
    apply selected_accepted in Hin; [| lia].
    destruct Hin as [[Hlen _] Hv].
    apply accepted_length_tight in Hv. lia.
Qed.

Lemma lengths_with_valid_sequences_witness :
  4 <= len (list_ascii_of_string "ACCW") <= 20
  /\ (exists seq, enumerable 20 seq /\ is_valid_peptide seq = Ok true)
  /\ exists r,
       generate_peptides 3 50 = Ok r
       /\ (results r = [] <-> 3 <= 3 \/ 21 <= 3).
Proof.
  destruct lengths_with_valid_sequences as (Hlen & Hex & Hgen).
  split; [| split].
  - apply Hlen. reflexivity.
  - apply Hex. lia.
  - apply Hgen. lia.
Defined.

(** ** The stored hydrophobicity *)

Lemma full_scan_selected (k : Z) :
  selected k (valid_count k) = filter accepts (product_nat sorted_aas (Z.to_nat k)).
Proof.
  unfold selected, room, valid_count, len.
  apply firstn_all2. lia.
Qed.

(** X12. The stored hydrophobicity of every returned record is at least
    1.0, and it can be exactly 1.0: the call for [k = 7] that scans all
    sequences returns the record of VVCVDKT, whose stored hydrophobicity is
    1.0. The strict bound that the predicate tests does not carry over to
    the rounded value of the table. *)
Theorem stored_hydrophobicity_bound :
  (forall k max_results r c,
     generate_peptides k max_results = Ok r -> In c (results r) ->
     (1.0 <=? Candidate.hydrophobicity c)%float = true)
  /\ (exists max_results r,
        generate_peptides 7 max_results = Ok r
        /\ In (Candidate.make "VVCVDKT" 870 1.0 0.43) (results r)).
Proof.
  split.
  - intros k max_results r c Hgen Hin.
    destruct (returned_record_fields k max_results r c Hgen Hin)
      as (seq & Henum & Hv & ->).
    cbn [Candidate.hydrophobicity].
    destruct (accepted_inv seq Hv) as (Hkn & _ & _ & Hh & _).
    pose proof (accepted_length seq Hv) as Hlen.
    apply rounded_mean_at_least_one; [exact Hkn | lia | exact Hh].
  - exists (valid_count 7). eexists.
    split; [apply (generate_peptides_spec 7 (valid_count 7)); lia |].
    cbn [results]. rewrite full_scan_selected.
    change (Candidate.make "VVCVDKT" 870 1.0 0.43)
      with (candidate_of 7 boundary_peptide).
    apply in_map, filter_In. split.
    + apply (product_enumerable 7); [lia | exact boundary_peptide_enumerable].
    + reflexivity.
Qed.

Lemma stored_hydrophobicity_bound_witness :
  (1.0 <=? Candidate.hydrophobicity (Candidate.make "ACCW" 535 1.47 0.5))%float = true.
Proof.
  destruct stored_hydrophobicity_bound as [Hbound _].
  apply (Hbound 4 1
           {| results := [Candidate.make "ACCW" 535 1.47 0.5];
              total_sequences := 160000;
              valid_ratio := Float 100 |}).
  - rewrite generate_peptides_walk_eq. vm_compute. reflexivity.
  - left. reflexivity.
Defined.
